(** * ServiceLog: ANSI span parser, bounded log buffer, scroll follow

    A shallow embedding of [frontend/src/components/ServiceLog.tsx]
    (cockpit-container-apps) and the properties of its log pipeline.

    Conventions of the embedding.
    - A JavaScript string is a [list ascii]: a sequence of code units.  The
      parser only ever inspects ESC, '[', ';', 'm' and the ten digits; every
      other unit is opaque to it, so the width of a unit plays no role.
    - A string index or length is a [nat].
    - A JavaScript number that holds a parameter code or an entry id is an
      exact natural number.  [Number] applied to a run of digits is exact
      below 2^53 and rounds to a value of at least 2^53 above it, so it
      lands on one of the codes the parser tests (all below 100) exactly
      when the decimal value is that code.  The id counter starts at 0 and
      advances by one per delivered line.
    - A JavaScript number that holds a scroll metric is a binary64
      floating-point number, and the arithmetic on it is floating-point
      arithmetic. *)

From Stdlib Require Import Ascii String.
From Stdlib Require Import List Arith Lia Bool NArith PrimFloat.
From Equations Require Import Equations.
Import ListNotations.

Local Open Scope nat_scope.
Local Open Scope list_scope.

(** JavaScript strings. *)
Definition jsstring : Type := list ascii.

(** A string literal as a JavaScript string. *)
Definition str (s : string) : jsstring := list_ascii_of_string s.

(** [text.slice(from, to)] for indices that are natural numbers. *)
Definition slice (text : jsstring) (from to : nat) : jsstring :=
  firstn (to - from) (skipn from text).

(** [text.slice(from)]. *)
Definition slice_from (text : jsstring) (from : nat) : jsstring :=
  skipn from text.

(* ===================================================================== *)
(** ** The escape-sequence parser *)
(* ===================================================================== *)

Module Ansi.

(** The characters the regular expression names. *)
Definition ESC : ascii := "027"%char.
Definition LBRACKET : ascii := "["%char.
Definition SEMI : ascii := ";"%char.
Definition LETTER_m : ascii := "m"%char.

(** The character class [[0-9]]. *)
Definition is_digit (c : ascii) : bool :=
  let n := nat_of_ascii c in (48 <=? n) && (n <=? 57).

(** The character class [[0-9;]]. *)
Definition is_param_char (c : ascii) : bool :=
  is_digit c || Ascii.eqb c SEMI.

(** [const ANSI_COLORS: Record<number, string>]. *)
Definition ANSI_COLORS (code : N) : option jsstring :=
  match code with
  | 30%N => Some (str "#555")
  | 31%N => Some (str "#c00")
  | 32%N => Some (str "#0a0")
  | 33%N => Some (str "#a50")
  | 34%N => Some (str "#00c")
  | 35%N => Some (str "#c0c")
  | 36%N => Some (str "#0cc")
  | 37%N => Some (str "#ccc")
  | 90%N => Some (str "#888")
  | 91%N => Some (str "#f55")
  | 92%N => Some (str "#5f5")
  | 93%N => Some (str "#ff5")
  | 94%N => Some (str "#55f")
  | 95%N => Some (str "#f5f")
  | 96%N => Some (str "#5ff")
  | 97%N => Some (str "#fff")
  | _ => None
  end.

(** [interface AnsiSpan].  [parseAnsi] always fills in the three fields;
    [color] is a string or [undefined]. *)
Record AnsiSpan : Type := mkSpan {
  text : jsstring;
  color : option jsstring;
  bold : bool
}.

(** *** The regular expression of [parseAnsi]

    The pattern is: the character ESC, a left bracket, a greedy starred
    class of digits and semicolons (the one capture group), the letter m.
    It carries the global flag. *)

(** The starred class and the letter m of the pattern, matched at the head
    of [s], with the greedy star and its backtracking written out: the star first tries
    to take one more character; when the rest then fails, it gives the
    character back and the pattern goes on with [m] at this position.  The
    result is the text captured by the group. *)
Fixpoint match_params_m (s : jsstring) : option jsstring :=
  match s with
  | [] => None
  | c :: s' =>
      if is_param_char c then
        match match_params_m s' with
        | Some ps => Some (c :: ps)
        | None => if Ascii.eqb c LETTER_m then Some [] else None
        end
      else if Ascii.eqb c LETTER_m then Some [] else None
  end.

(** The whole pattern matched at the head of [s]. *)
Definition match_here (s : jsstring) : option jsstring :=
  match s with
  | c0 :: c1 :: s' =>
      if Ascii.eqb c0 ESC && Ascii.eqb c1 LBRACKET then match_params_m s'
      else None
  | _ => None
  end.

(** What [re.exec] returns on success: [match.index], [match[1]], and the
    value it leaves in [re.lastIndex]. *)
Record RegExpMatch : Type := mkMatch {
  index : nat;
  group1 : jsstring;
  lastIndex : nat
}.

(** The search of [exec]: try the pattern at position [i], whose suffix of
    the text is [s], then at [i + 1], and so on. *)
Fixpoint search (s : jsstring) (i : nat) : option RegExpMatch :=
  match match_here s with
  | Some ps => Some (mkMatch i ps (i + 3 + length ps))
  | None =>
      match s with
      | [] => None
      | _ :: s' => search s' (S i)
      end
  end.

(** [re.exec(text)] for the global expression whose [lastIndex] is [from].
    [None] is [null]. *)
Definition re_exec (text : jsstring) (from : nat) : option RegExpMatch :=
  if from <=? length text then search (skipn from text) from else None.

(** *** Parameters *)

(** A JavaScript number as [Number] can return it here. *)
Inductive jsnum : Type :=
| Num (n : N)
| NaN.

Definition digit_value (c : ascii) : N := N.of_nat (nat_of_ascii c - 48).

(** [Number(seg)] on a run of digits: its decimal value, and 0 for the
    empty string.  The captured group holds digits and semicolons only, so
    no other string reaches [Number]; those are sent to [NaN] here. *)
Definition Number (seg : jsstring) : jsnum :=
  if forallb is_digit seg
  then Num (fold_left (fun acc c => (10 * acc + digit_value c)%N) seg 0%N)
  else NaN.

(** [s.split(';')]. *)
Fixpoint split_semi (s : jsstring) : list jsstring :=
  match s with
  | [] => [[]]
  | c :: s' =>
      if Ascii.eqb c SEMI then [] :: split_semi s'
      else
        match split_semi s' with
        | seg :: segs => (c :: seg) :: segs
        | [] => [[c]]
        end
  end.

(** [match[1] ? match[1].split(';').map(Number) : [0]]; the empty string is
    the only falsy string. *)
Definition params_of (g : jsstring) : list jsnum :=
  match g with
  | [] => [Num 0]
  | _ => map Number (split_semi g)
  end.

(** The parser's [color] and [bold] variables. *)
Definition style : Type := (option jsstring * bool)%type.

Definition default_style : style := (None, false).

(** The body of [for (const code of params)]. *)
Definition apply_code (st : style) (code : jsnum) : style :=
  match code with
  | NaN => st
  | Num n =>
      if (n =? 0)%N then (None, false)
      else if (n =? 1)%N then (fst st, true)
      else if (n =? 39)%N then (None, snd st)
      else
        match ANSI_COLORS n with
        | Some c => (Some c, snd st)
        | None => st
        end
  end.

Definition apply_codes (st : style) (codes : list jsnum) : style :=
  fold_left apply_code codes st.

(** *** Facts about [exec] that the loop's termination rests on *)

Lemma search_unfold s i :
  search s i =
  match match_here s with
  | Some ps => Some (mkMatch i ps (i + 3 + length ps))
  | None => match s with [] => None | _ :: s' => search s' (S i) end
  end.
Proof. destruct s; reflexivity. Qed.

Lemma search_bounds s i m :
  search s i = Some m ->
  i <= index m /\ lastIndex m = index m + 3 + length (group1 m).
Proof.
  revert i. induction s as [|c s IH]; intros i; rewrite search_unfold.
  - simpl. discriminate.
  - destruct (match_here (c :: s)) eqn:E.
    + intros [= Hm]. subst m. simpl. lia.
    + intros H. apply IH in H. lia.
Qed.

Lemma match_params_m_shape s ps :
  match_params_m s = Some ps ->
  exists rest, s = ps ++ LETTER_m :: rest /\ forallb is_param_char ps = true.
Proof.
  revert ps. induction s as [|c s IH]; intros ps; simpl; [discriminate|].
  destruct (is_param_char c) eqn:Ec.
  - destruct (match_params_m s) as [ps'|] eqn:E.
    + intros [= <-]. destruct (IH ps' eq_refl) as (rest & -> & Hall).
      exists rest. simpl. rewrite Ec, Hall. auto.
    + destruct (Ascii.eqb c LETTER_m) eqn:Em; [|discriminate].
      intros [= <-]. apply Ascii.eqb_eq in Em. subst c. exists s. auto.
  - destruct (Ascii.eqb c LETTER_m) eqn:Em; [|discriminate].
    intros [= <-]. apply Ascii.eqb_eq in Em. subst c. exists s. auto.
Qed.

Lemma match_here_shape s ps :
  match_here s = Some ps ->
  exists rest, s = ESC :: LBRACKET :: ps ++ LETTER_m :: rest
               /\ forallb is_param_char ps = true.
Proof.
  destruct s as [|c0 [|c1 s]]; simpl; try discriminate.
  destruct (Ascii.eqb c0 ESC) eqn:E0; [|discriminate].
  destruct (Ascii.eqb c1 LBRACKET) eqn:E1; [|discriminate]. simpl.
  apply Ascii.eqb_eq in E0, E1. subst. intros H.
  destruct (match_params_m_shape _ _ H) as (rest & -> & Hall).
  exists rest. auto.
Qed.

Lemma search_suffix s i m :
  search s i = Some m ->
  exists rest,
    skipn (index m - i) s = ESC :: LBRACKET :: group1 m ++ LETTER_m :: rest
    /\ forallb is_param_char (group1 m) = true.
Proof.
  revert i. induction s as [|c s IH]; intros i; rewrite search_unfold.
  - simpl. discriminate.
  - destruct (match_here (c :: s)) as [ps|] eqn:E.
    + intros [= Hm]. subst m. cbn [index group1].
      replace (i - i) with 0 by lia. cbn [skipn].
      apply match_here_shape in E. exact E.
    + intros H. pose proof (search_bounds _ _ _ H) as [Hi _].
      destruct (IH _ H) as (rest & Hs & Hall).
      exists rest. split; [|exact Hall].
      replace (index m - i) with (S (index m - S i)) by lia. exact Hs.
Qed.

Lemma re_exec_bounds text from m :
  re_exec text from = Some m ->
  from <= index m /\ index m < lastIndex m /\ lastIndex m <= length text
  /\ lastIndex m = index m + 3 + length (group1 m).
Proof.
  unfold re_exec. destruct (from <=? length text) eqn:E; [|discriminate].
  apply Nat.leb_le in E. intros H.
  pose proof (search_bounds _ _ _ H) as [Hi He].
  destruct (search_suffix _ _ _ H) as (rest & Hs & _).
  assert (Hl : length (skipn (index m - from) (skipn from text))
               = length (ESC :: LBRACKET :: group1 m ++ LETTER_m :: rest))
    by (rewrite Hs; reflexivity).
  rewrite !length_skipn in Hl. simpl in Hl. rewrite length_app in Hl.
  simpl in Hl. lia.
Qed.

(** *** [parseAnsi] *)

(** [spans.push(span)]. *)
Definition push (spans : list AnsiSpan) (span : AnsiSpan) : list AnsiSpan :=
  spans ++ [span].

(** A value together with the equation that names it, so that the loop
    below can use what [exec] returned in its termination argument. *)
Definition inspect {A : Type} (a : A) : {b : A | a = b} := exist _ a eq_refl.

(** The [while ((match = re.exec(text)) !== null)] loop together with the
    statements after it, started in a state of the loop head.  [last] is
    the variable [lastIndex]; it equals [re.lastIndex] at every loop head
    (both are 0 at first and the body copies the one into the other), so
    the one argument stands for both.  The state [st] is the pair of
    [color] and [bold]. *)
Equations? parse_loop (text : jsstring) (last : nat) (st : style)
    (spans : list AnsiSpan) : list AnsiSpan
    by wf (length text - last) lt :=
  parse_loop text last st spans with inspect (re_exec text last) => {
    | exist _ (Some m) Hm =>
        parse_loop text (lastIndex m)
          (apply_codes st (params_of (group1 m)))
          (if last <? index m
           then push spans (mkSpan (slice text last (index m)) (fst st) (snd st))
           else spans)
    | exist _ None _ =>
        if last <? length text
        then push spans (mkSpan (slice_from text last) (fst st) (snd st))
        else spans }.
Proof.
  apply re_exec_bounds in Hm. lia.
Qed.

(** [export function parseAnsi(text: string): AnsiSpan[]]. *)
Definition parseAnsi (text : jsstring) : list AnsiSpan :=
  parse_loop text 0 default_style [].

(** *** The text of a line without its escape sequences *)

(** The second reading of the parser's output, written from the grammar of
    the specification instead of from the code: a well-formed sequence is
    ESC, a left bracket, any number of digits and semicolons, and the
    letter m. *)
Definition sgr_sequence (e : jsstring) : Prop :=
  exists ps, forallb is_param_char ps = true
             /\ e = ESC :: LBRACKET :: ps ++ [LETTER_m].

(** What is left of [s] after its leading digits and semicolons. *)
Fixpoint after_params (s : jsstring) : jsstring :=
  match s with
  | c :: s' => if is_param_char c then after_params s' else s
  | [] => []
  end.

(** When [s] starts with a well-formed sequence, what follows it. *)
Definition drop_sgr (s : jsstring) : option jsstring :=
  match s with
  | c0 :: c1 :: s' =>
      if Ascii.eqb c0 ESC && Ascii.eqb c1 LBRACKET then
        match after_params s' with
        | c :: rest => if Ascii.eqb c LETTER_m then Some rest else None
        | [] => None
        end
      else None
  | _ => None
  end.

Lemma after_params_length s : length (after_params s) <= length s.
Proof.
  induction s as [|c s IH]; simpl; [lia|].
  destruct (is_param_char c); simpl; lia.
Qed.

Lemma drop_sgr_length s rest : drop_sgr s = Some rest -> length rest < length s.
Proof.
  destruct s as [|c0 [|c1 s]]; simpl; try discriminate.
  destruct (Ascii.eqb c0 ESC && Ascii.eqb c1 LBRACKET); [|discriminate].
  pose proof (after_params_length s) as Hl.
  destruct (after_params s) as [|c r]; [discriminate|].
  destruct (Ascii.eqb c LETTER_m); [|discriminate].
  intros [= Hr]. subst. simpl in Hl. lia.
Qed.

(** The line with every well-formed sequence removed, reading from the
    left: at a position where a sequence starts, the sequence is skipped;
    any other character is kept. *)
Equations? strip_sgr (s : jsstring) : jsstring by wf (length s) lt :=
  strip_sgr [] := [];
  strip_sgr (c :: s') with inspect (drop_sgr (c :: s')) => {
    | exist _ (Some rest) Hd => strip_sgr rest
    | exist _ None _ => c :: strip_sgr s' }.
Proof.
  change (drop_sgr (c :: s') = Some rest) in Hd.
  apply drop_sgr_length in Hd. exact Hd.
Qed.

(** The texts of the spans, concatenated. *)
Definition concat_text (spans : list AnsiSpan) : jsstring :=
  concat (map text spans).

(** [s] contains no well-formed sequence: none starts at any position. *)
Fixpoint no_sgr (s : jsstring) : bool :=
  match drop_sgr s with
  | Some _ => false
  | None =>
      match s with
      | [] => true
      | _ :: s' => no_sgr s'
      end
  end.

(** *** A line as plain pieces separated by well-formed sequences *)

(** The well-formed sequence with parameter text [ps]. *)
Definition sgr (ps : jsstring) : jsstring :=
  ESC :: LBRACKET :: ps ++ [LETTER_m].

(** A segment is a plain piece followed by the parameter text of the
    sequence that ends it; [tail] is the plain piece after the last
    sequence. *)
Definition segment : Type := (jsstring * jsstring)%type.

Fixpoint render (segs : list segment) (tail : jsstring) : jsstring :=
  match segs with
  | [] => tail
  | (plain, ps) :: segs' => plain ++ sgr ps ++ render segs' tail
  end.

(** Plain pieces hold no well-formed sequence (they may hold anything
    else, escape characters included), parameter texts hold digits and
    semicolons only. *)
Definition segments_ok (segs : list segment) (tail : jsstring) : bool :=
  forallb (fun seg => no_sgr (fst seg) && forallb is_param_char (snd seg)) segs
  && no_sgr tail.

(** The span a plain piece gives under the style [st]: none when the piece
    is empty. *)
Definition span_of (plain : jsstring) (st : style) : list AnsiSpan :=
  match plain with
  | [] => []
  | _ => [mkSpan plain (fst st) (snd st)]
  end.

(** The spans of a split line: each plain piece verbatim under the style
    in force, the style changed by the parameters of the sequences only. *)
Fixpoint runs_of (st : style) (segs : list segment) (tail : jsstring)
  : list AnsiSpan :=
  match segs with
  | [] => span_of tail st
  | (plain, ps) :: segs' =>
      span_of plain st ++ runs_of (apply_codes st (params_of ps)) segs' tail
  end.

(** A sample split line, with two well-formed sequences and three pieces
    of escape-like text that are not: a screen clear, a sequence ended by
    x, and a cut-off sequence at the end of the line. *)
Definition sample_segments : list segment :=
  [ (ESC :: str "[2Ja", str "31"); (ESC :: str "[3x", str "1") ].

Definition sample_tail : jsstring := ESC :: str "[4".

End Ansi.

(* ===================================================================== *)
(** ** The ServiceLog component *)
(* ===================================================================== *)

Module ServiceLog.

(** [const MAX_LOG_LINES = 200]. *)
Definition MAX_LOG_LINES : nat := 200.

(** [interface LogEntry]. *)
Record LogEntry : Type := mkEntry {
  id : nat;
  text : jsstring
}.

(** The three metrics of the scroll container that [handleScroll] reads.
    They are JavaScript numbers, that is binary64 floating-point numbers
    ([scrollTop] may be fractional); what the code computes with them is
    floating-point arithmetic, each operation rounded to the nearest. *)
Record Element : Type := mkElement {
  scrollHeight : float;
  scrollTop : float;
  clientHeight : float
}.

(** The state of one mounted component that the log pipeline uses:
    [entries] and [error] are [useState] cells, [shouldAutoScroll] and
    [nextId] are [useRef] cells, created as [[]], [null], [true], [0]. *)
Record State : Type := mkState {
  entries : list LogEntry;
  error : option jsstring;
  shouldAutoScroll : bool;
  nextId : nat
}.

Definition initial : State := mkState [] None true 0.

(** The updater that the [onLine] callback hands to [setEntries], with its
    [nextId.current++]. *)
Definition onLine (line : jsstring) (st : State) : State :=
  let entry := mkEntry (nextId st) line in
  let next := entries st ++ [entry] in
  mkState
    (if MAX_LOG_LINES <? length next
     then skipn (length next - MAX_LOG_LINES) next
     else next)
    (error st) (shouldAutoScroll st) (S (nextId st)).

(** [onError: (message) => setError(message)]. *)
Definition onError (message : jsstring) (st : State) : State :=
  mkState (entries st) (Some message) (shouldAutoScroll st) (nextId st).

(** The start of the subscription effect when the panel is expanded:
    [setEntries([]); setError(null)].  This is the only place that clears
    the buffer; the counter [nextId] is not touched. *)
Definition clear (st : State) : State :=
  mkState [] None (shouldAutoScroll st) (nextId st).

(** [const atBottom = el.scrollHeight - el.scrollTop - el.clientHeight < 30]. *)
Definition atBottom (el : Element) : bool :=
  (scrollHeight el - scrollTop el - clientHeight el <? 30)%float.

(** [handleScroll]; [None] is a [containerRef.current] that is [null]. *)
Definition handleScroll (el : option Element) (st : State) : State :=
  match el with
  | None => st
  | Some e => mkState (entries st) (error st) (atBottom e) (nextId st)
  end.

(** What can happen to a mounted component: the subscription effect runs
    (the panel is expanded, or the package changes while it is), the
    stream delivers a line or reports an error, the container, which is
    there whenever it scrolls, reports a scroll. *)
Inductive Event : Type :=
| Subscribe
| Line (line : jsstring)
| Error (message : jsstring)
| Scroll (el : Element).

Definition step (st : State) (ev : Event) : State :=
  match ev with
  | Subscribe => clear st
  | Line line => onLine line st
  | Error message => onError message st
  | Scroll el => handleScroll (Some el) st
  end.

Definition run (evs : list Event) (st : State) : State :=
  fold_left step evs st.


(** The entries made from [lines] when the counter stands at [n]. *)
Fixpoint number (n : nat) (lines : list jsstring) : list LogEntry :=
  match lines with
  | [] => []
  | line :: lines' => mkEntry n line :: number (S n) lines'
  end.

(** The element of the latest scroll among [evs], if there is one. *)
Definition last_scroll (evs : list Event) : option Element :=
  fold_left (fun acc ev => match ev with Scroll el => Some el | _ => acc end)
            evs None.

(** Sample streams: 201 equal lines; 250 lines of which the one at index
    50 differs from the rest; 250 lines that carry their own number in
    three digits. *)
Definition sample_201 : list jsstring := repeat (str "x") 201.

Definition sample_250 : list jsstring :=
  repeat (str "a") 50 ++ str "b" :: repeat (str "c") 199.

Definition numbered_lines : list jsstring :=
  map (fun i => [ascii_of_nat (48 + i / 100);
                 ascii_of_nat (48 + i / 10 mod 10);
                 ascii_of_nat (48 + i mod 10)])
      (seq 0 250).

(** Sample events before and after a clear. *)
Definition sample_before : list Event :=
  [Subscribe; Line (str "a"); Line (str "b")].

Definition sample_after : list Event := [Line (str "c")].

(** Sample containers, both 200 units high over 1000 units of content:
    one showing the content down to 20 units above its end, one down to 30
    units above it. *)
Definition sample_near : Element := mkElement 1000 780 200.
Definition sample_far : Element := mkElement 1000 770 200.

(** A container scrolled by 2^-50 of a unit over 1000 units of content and
    970 units high: the end of the content is less than 30 units below the
    view, and the first subtraction rounds to 1000. *)
Definition sample_rounding : Element := mkElement 1000 0x1p-50 970.

(** The last [k] elements of a list. *)
Definition keep_last {A : Type} (k : nat) (l : list A) : list A :=
  skipn (length l - k) l.

End ServiceLog.

(* ===================================================================== *)
(** ** The stream handle *)
(* ===================================================================== *)

Module Stream.

(** The function [streamServiceJournal] and its [JournalStreamHandle] are
    imported from [../api], which is not among the sources at hand; the
    component above only calls [streamServiceJournal] and [close]. *)

(** Modelled from the spec: the phases of a handle of the missing
    [../api].  [open] makes its handle in [Streaming]; the phase before
    [open] has no handle. *)
Inductive Phase : Type :=
| Streaming
| Closed.

(** Modelled from the spec: a call that a handle of the missing [../api]
    makes to its owner. *)
Inductive Callback : Type :=
| OnLine (line : jsstring)
| OnError (message : jsstring).

(** Modelled from the spec: the handle that [open] (in the code,
    [streamServiceJournal] of the missing [../api]) returns.  It records
    its phase, the callbacks it has made so far, oldest first, and how
    many times it has released the underlying subscription. *)
Record Handle : Type := mkHandle {
  phase : Phase;
  calls : list Callback;
  released : nat
}.

(** Modelled from the spec: [open] of the missing [../api]; a new handle
    is in [Streaming], has called nothing and released nothing. *)
Definition open : Handle := mkHandle Streaming [] 0.

(** Modelled from the spec: what reaches a handle of the missing
    [../api]: the transport delivers a line or fails, the source signals
    its end, the owner calls [close]. *)
Inductive Input : Type :=
| Deliver (line : jsstring)
| Fail (message : jsstring)
| Terminate
| Close.

(** Modelled from the spec: the state machine of the missing [../api].
    While [Streaming], a line is passed to [onLine]; a failure is passed
    to [onError] and is terminal; the end of the source and [close] are
    terminal; entering [Closed] releases the subscription.  No transition
    leaves [Closed]: whatever arrives there is dropped. *)
Definition step (h : Handle) (i : Input) : Handle :=
  match phase h with
  | Closed => h
  | Streaming =>
      match i with
      | Deliver line => mkHandle Streaming (calls h ++ [OnLine line]) (released h)
      | Fail message =>
          mkHandle Closed (calls h ++ [OnError message]) (S (released h))
      | Terminate => mkHandle Closed (calls h) (S (released h))
      | Close => mkHandle Closed (calls h) (S (released h))
      end
  end.

(** Modelled from the spec: [handle.close()] of the missing [../api]. *)
Definition close (h : Handle) : Handle := step h Close.

Definition run (inputs : list Input) (h : Handle) : Handle :=
  fold_left step inputs h.

End Stream.

(* ===================================================================== *)
(** ** What the log panel draws *)
(* ===================================================================== *)

Module LogView.
Import Ansi ServiceLog.

(** [React.CSSProperties], as far as [AnsiLine] fills it in. *)
Record CSSProperties : Type := mkCSS {
  css_color : option jsstring;
  css_fontWeight : option jsstring
}.

(** The two kinds of element that [AnsiLine] returns for a span. *)
Inductive ReactNode : Type :=
| Fragment (key : nat) (children : jsstring)
| SpanElement (key : nat) (style : CSSProperties) (children : jsstring).

(** A string or [undefined] or [null] in a condition: the empty string is
    falsy like the other two. *)
Definition truthy (s : option jsstring) : bool :=
  match s with
  | Some (_ :: _) => true
  | _ => false
  end.

(** The callback of [spans.map((span, i) => ...)] in [AnsiLine]. *)
Definition render_span (span : AnsiSpan) (i : nat) : ReactNode :=
  if negb (truthy (Ansi.color span)) && negb (Ansi.bold span)
  then Fragment i (Ansi.text span)
  else SpanElement i
         (mkCSS (if truthy (Ansi.color span) then Ansi.color span else None)
                (if Ansi.bold span then Some (str "bold") else None))
         (Ansi.text span).

(** [array.map(f)] for a callback that takes the element and its index;
    [i] is the index of the head. *)
Fixpoint map_indexed {A B : Type} (f : A -> nat -> B) (l : list A) (i : nat)
  : list B :=
  match l with
  | [] => []
  | x :: l' => f x i :: map_indexed f l' (S i)
  end.

(** [function AnsiLine({ text })]: the children of the [div] it returns. *)
Definition AnsiLine (text : jsstring) : list ReactNode :=
  map_indexed render_span (parseAnsi text) 0.

Definition node_key (n : ReactNode) : nat :=
  match n with
  | Fragment k _ => k
  | SpanElement k _ _ => k
  end.

(** The text that an element puts on the page. *)
Definition node_text (n : ReactNode) : jsstring :=
  match n with
  | Fragment _ t => t
  | SpanElement _ _ t => t
  end.

Definition is_fragment (n : ReactNode) : bool :=
  match n with
  | Fragment _ _ => true
  | SpanElement _ _ _ => false
  end.

(** The three things the scroll container can hold, besides the end
    marker: the failure message with the error in it, the notice that
    there are no entries, or one [AnsiLine] per entry, keyed by its id. *)
Inductive LogBody : Type :=
| Failure (message : jsstring)
| NoEntriesYet
| LogLines (rows : list (nat * list ReactNode)).

(** The conditional [error ? ... : entries.length === 0 ? ... : ...] of
    the component's JSX. *)
Definition body (st : State) : LogBody :=
  match error st with
  | Some (c :: message) => Failure (c :: message)
  | _ =>
      match entries st with
      | [] => NoEntriesYet
      | es => LogLines (map (fun e => (id e, AnsiLine (ServiceLog.text e))) es)
      end
  end.

(** The effect that depends on [entries]: whether it calls
    [logEndRef.current.scrollIntoView]; [logEnd] says that the end marker is
    on the page. *)
Definition scrollsIntoView (st : State) (logEnd : bool) : bool :=
  shouldAutoScroll st && logEnd.

(** The lines among [evs], oldest first. *)
Fixpoint lines_of (evs : list Event) : list jsstring :=
  match evs with
  | [] => []
  | Line line :: evs' => line :: lines_of evs'
  | _ :: evs' => lines_of evs'
  end.

(** No event of [evs] satisfies [p]. *)
Definition none_is (p : Event -> bool) (evs : list Event) : bool :=
  forallb (fun ev => negb (p ev)) evs.

Definition is_subscribe (ev : Event) : bool :=
  match ev with Subscribe => true | _ => false end.

Definition is_error (ev : Event) : bool :=
  match ev with Error _ => true | _ => false end.

Definition is_scroll (ev : Event) : bool :=
  match ev with Scroll _ => true | _ => false end.

(** The ids in the buffer are the last ones handed out. *)
Definition ids_in_step (st : State) : Prop :=
  length (entries st) <= nextId st
  /\ map id (entries st)
     = seq (nextId st - length (entries st)) (length (entries st)).

End LogView.

(* ===================================================================== *)
(** ** Styles along a split line *)
(* ===================================================================== *)

Module AnsiStyles.
Import Ansi.

(** The style in force after the sequences of [segs], started in [st]. *)
Definition style_after (st : style) (segs : list segment) : style :=
  fold_left (fun st seg => apply_codes st (params_of (snd seg))) segs st.

(** A color is one that the table [ANSI_COLORS] holds. *)
Definition from_table (c : option jsstring) : Prop :=
  match c with
  | None => True
  | Some css => exists n, ANSI_COLORS n = Some css
  end.

End AnsiStyles.

(* ===================================================================== *)
(** ** The subscription effect of the component *)
(* ===================================================================== *)

Module Lifecycle.

(** [a === b] on strings. *)
Fixpoint eqb_jsstring (a b : jsstring) : bool :=
  match a, b with
  | [], [] => true
  | x :: a', y :: b' => Ascii.eqb x y && eqb_jsstring a' b'
  | _, _ => false
  end.

(** Which of the two [close()] calls of the effect a call comes from: the
    one in the branch for a collapsed panel, or the one in the cleanup
    function.  The code does not tell them apart; the tag is there to
    state which of them run. *)
Inductive Origin : Type :=
| InCollapseBranch
| InCleanup.

(** What the effect does to the outside, in order.  Handles are told
    apart by a number: [streamServiceJournal] returns a new object at each
    call. *)
Inductive Call : Type :=
| SetEntriesEmpty
| SetErrorNull
| StreamServiceJournal (handle : nat) (packageName : jsstring)
| HandleClose (origin : Origin) (handle : nat).

(** A component instance as the effect sees it: the [isExpanded] state,
    the [packageName] prop, the [streamRef] cell, the handle that the
    cleanup function of the latest run of the effect closes over ([None]
    when that run returned no cleanup function), the number of the next
    handle, and the calls made so far. *)
Record Component : Type := mkComponent {
  mounted : bool;
  isExpanded : bool;
  packageName : jsstring;
  streamRef : option nat;
  cleanup : option nat;
  fresh : nat;
  calls : list Call
}.

(** The body of the second [useEffect]. *)
Definition effect (c : Component) : Component :=
  if negb (isExpanded c) then
    match streamRef c with
    | Some h =>
        mkComponent (mounted c) (isExpanded c) (packageName c) None None
          (fresh c) (calls c ++ [HandleClose InCollapseBranch h])
    | None =>
        mkComponent (mounted c) (isExpanded c) (packageName c) None None
          (fresh c) (calls c)
    end
  else
    mkComponent (mounted c) (isExpanded c) (packageName c)
      (Some (fresh c)) (Some (fresh c)) (S (fresh c))
      (calls c ++ [SetEntriesEmpty; SetErrorNull;
                   StreamServiceJournal (fresh c) (packageName c)]).

(** The function that the effect returns:
    [() => { handle.close(); streamRef.current = null; }]. *)
Definition run_cleanup (c : Component) : Component :=
  match cleanup c with
  | Some h =>
      mkComponent (mounted c) (isExpanded c) (packageName c) None None
        (fresh c) (calls c ++ [HandleClose InCleanup h])
  | None => c
  end.

(** React's rule for an effect with the dependencies
    [[isExpanded, packageName]]: it runs after the first render; when a
    render changes a dependency, the cleanup function of the previous run
    runs first and then the effect; on unmount the cleanup function
    runs. *)
Definition mount (package : jsstring) (initialExpanded : bool) : Component :=
  effect (mkComponent true initialExpanded package None None 0 []).

(** The header button is clicked ([setIsExpanded(!isExpanded)]), the
    parent passes a package name, the component renders again for another
    reason, the component is unmounted. *)
Inductive Event : Type :=
| Toggle
| SetPackage (package : jsstring)
| Rerender
| Unmount.

Definition step (c : Component) (ev : Event) : Component :=
  if negb (mounted c) then c
  else
    match ev with
    | Toggle =>
        effect (run_cleanup
                  (mkComponent (mounted c) (negb (isExpanded c)) (packageName c)
                     (streamRef c) (cleanup c) (fresh c) (calls c)))
    | SetPackage package =>
        if eqb_jsstring package (packageName c) then c
        else
          effect (run_cleanup
                    (mkComponent (mounted c) (isExpanded c) package
                       (streamRef c) (cleanup c) (fresh c) (calls c)))
    | Rerender => c
    | Unmount =>
        let c' := run_cleanup c in
        mkComponent false (isExpanded c') (packageName c') (streamRef c')
          (cleanup c') (fresh c') (calls c')
    end.

Definition run (evs : list Event) (c : Component) : Component :=
  fold_left step evs c.

(** Reading a list of calls from the left: [next] is the number that the
    next handle must have, [open] the handle that is open and its package.
    A stream may be opened only while none is open, and only the open one
    may be closed; the result is [None] when the calls break this, and
    otherwise what holds after them. *)
Fixpoint scan (cs : list Call) (next : nat) (open : option (nat * jsstring))
  : option (nat * option (nat * jsstring)) :=
  match cs with
  | [] => Some (next, open)
  | StreamServiceJournal h package :: cs' =>
      match open with
      | None => if h =? next then scan cs' (S next) (Some (h, package)) else None
      | Some _ => None
      end
  | HandleClose _ h :: cs' =>
      match open with
      | Some (h', _) => if h =? h' then scan cs' next None else None
      | None => None
      end
  | _ :: cs' => scan cs' next open
  end.

Definition is_open (ref : option nat) : bool :=
  match ref with
  | Some _ => true
  | None => false
  end.

Definition from_cleanup (call : Call) : bool :=
  match call with
  | HandleClose InCollapseBranch _ => false
  | _ => true
  end.

(** What the histories of a component keep true. *)
Definition consistent (c : Component) : Prop :=
  scan (calls c) 0 None
  = Some (fresh c, option_map (fun h => (h, packageName c)) (streamRef c))
  /\ cleanup c = streamRef c
  /\ is_open (streamRef c) = mounted c && isExpanded c
  /\ forallb from_cleanup (calls c) = true.

End Lifecycle.

(* ===================================================================== *)
(** ** The store editor modal *)
(* ===================================================================== *)

Module StoreEditor.
Import Lifecycle.

(** The fields of [StorePackage] (a type of [../api]) that the modal
    reads. *)
Record StorePackage : Type := mkStorePackage {
  store_id : jsstring;
  package_name : jsstring;
  description : jsstring;
  installed : bool
}.

(** [interface StoreState]. *)
Record StoreState : Type := mkStoreState {
  package : StorePackage;
  enabled : bool;
  originallyInstalled : bool
}.

(** What [loadStores] hands to [setStores] for the packages that
    [listStorePackages] returned. *)
Definition loaded (packages : list StorePackage) : list StoreState :=
  map (fun pkg => mkStoreState pkg (installed pkg) (installed pkg)) packages.

(** The updater that [handleToggle(storeId)] hands to [setStores]. *)
Definition handleToggle (storeId : jsstring) (prev : list StoreState)
  : list StoreState :=
  map (fun store =>
         if eqb_jsstring (store_id (package store)) storeId
         then mkStoreState (package store) (negb (enabled store))
                (originallyInstalled store)
         else store)
      prev.

(** [stores.some((store) => store.enabled !== store.originallyInstalled)]. *)
Definition hasChanges (stores : list StoreState) : bool :=
  existsb (fun store => negb (Bool.eqb (enabled store) (originallyInstalled store)))
          stores.

(** [stores.filter((s) => s.enabled && !s.originallyInstalled)]. *)
Definition toInstall (stores : list StoreState) : list StoreState :=
  filter (fun s => enabled s && negb (originallyInstalled s)) stores.

(** [stores.filter((s) => !s.enabled && s.originallyInstalled)]. *)
Definition toRemove (stores : list StoreState) : list StoreState :=
  filter (fun s => negb (enabled s) && originallyInstalled s) stores.

(** The two calls that [handleSave] awaits. *)
Inductive Operation : Type :=
| InstallPackage (name : jsstring)
| RemovePackage (name : jsstring).

(** What [handleSave] does, in order. *)
Inductive Act : Type :=
| SetSaving (saving : bool)
| SetError (error : option jsstring)
| SetSaveProgress (progress : option jsstring)
| Await (op : Operation)
| OnSave
| OnClose.

(** The template strings of the progress notice. *)
Definition progress (op : Operation) : jsstring :=
  match op with
  | InstallPackage name => str "Installing " ++ name ++ str "..."
  | RemovePackage name => str "Removing " ++ name ++ str "..."
  end.

Definition install_op (s : StoreState) : Operation :=
  InstallPackage (package_name (package s)).

Definition remove_op (s : StoreState) : Operation :=
  RemovePackage (package_name (package s)).

(** The operations that a save is to make, in the order of the two
    loops. *)
Definition plan (stores : list StoreState) : list Operation :=
  map install_op (toInstall stores) ++ map remove_op (toRemove stores).

(** The notice and the call of each operation of [ops]. *)
Definition steps (ops : list Operation) : list Act :=
  flat_map (fun op => [SetSaveProgress (Some (progress op)); Await op]) ops.

(** The operations awaited among [acts]. *)
Fixpoint awaited (acts : list Act) : list Operation :=
  match acts with
  | [] => []
  | Await op :: acts' => op :: awaited acts'
  | _ :: acts' => awaited acts'
  end.

Section Save.

(** How the awaited promises settle: given the operations that have
    resolved so far, [None] when the operation resolves, and when it
    rejects the message that [formatErrorMessage] (of [../api]) makes of
    the error. *)
Variable outcome : list Operation -> Operation -> option jsstring.

(** One [for (const store of ...)] loop of [handleSave] inside its [try]:
    the acts it makes, and the message of the rejection that ends it, if
    one does.  [done] holds the operations that resolved before. *)
Fixpoint perform (ops : list Operation) (done : list Operation)
  : list Act * option jsstring :=
  match ops with
  | [] => ([], None)
  | op :: ops' =>
      match outcome done op with
      | Some message =>
          ([SetSaveProgress (Some (progress op)); Await op], Some message)
      | None =>
          let (acts, r) := perform ops' (done ++ [op]) in
          (SetSaveProgress (Some (progress op)) :: Await op :: acts, r)
      end
  end.

(** [handleSave], for the [stores] of the render it belongs to. *)
Definition handleSave (stores : list StoreState) : list Act :=
  if negb (hasChanges stores) then [OnClose]
  else
    [SetSaving true; SetError None]
    ++ (let (acts1, r1) := perform (map install_op (toInstall stores)) [] in
        match r1 with
        | Some message =>
            acts1 ++ [SetError (Some message); SetSaveProgress None]
        | None =>
            let (acts2, r2) :=
              perform (map remove_op (toRemove stores))
                      (map install_op (toInstall stores)) in
            match r2 with
            | Some message =>
                acts1 ++ acts2 ++ [SetError (Some message); SetSaveProgress None]
            | None => acts1 ++ acts2 ++ [SetSaveProgress None; OnSave; OnClose]
            end
        end)
    ++ [SetSaving false].

End Save.

(** Sample oracles and stores: every operation resolves; the removal of
    [store-b] rejects. *)
Definition all_resolve (done : list Operation) (op : Operation)
  : option jsstring := None.

Definition removal_rejects (done : list Operation) (op : Operation)
  : option jsstring :=
  match op with
  | RemovePackage _ => Some (str "locked")
  | InstallPackage _ => None
  end.

Definition sample_packages : list StorePackage :=
  [ mkStorePackage (str "a") (str "store-a") (str "A") false;
    mkStorePackage (str "b") (str "store-b") (str "B") true;
    mkStorePackage (str "c") (str "store-c") (str "C") true ].

Definition sample_stores : list StoreState :=
  handleToggle (str "b") (handleToggle (str "a") (loaded sample_packages)).

End StoreEditor.

(* ===================================================================== *)
(** ** The filter toggle group *)
(* ===================================================================== *)

Module FilterToggle.

(** [type InstallFilter = 'all' | 'available' | 'installed']. *)
Inductive InstallFilter : Type :=
| all
| available
| installed.

(** [a === b] on filters. *)
Definition eqb_filter (a b : InstallFilter) : bool :=
  match a, b with
  | all, all | available, available | installed, installed => true
  | _, _ => false
  end.

(** The props that the component gives a [ToggleGroupItem]; [onClick] is
    the list of calls of [onFilterChange] that a click makes. *)
Record ToggleGroupItem : Type := mkItem {
  item_text : jsstring;
  ariaPressed : bool;
  isSelected : bool;
  onClick : list InstallFilter
}.

(** [handleItemClick(filter)()]. *)
Definition handleItemClick (selectedFilter filter : InstallFilter)
  : list InstallFilter :=
  if negb (eqb_filter filter selectedFilter) then [filter] else [].

(** The children of the [ToggleGroup] that the component returns. *)
Definition FilterToggleGroup (selectedFilter : InstallFilter)
  : list ToggleGroupItem :=
  [ mkItem (str "All Apps") (eqb_filter selectedFilter all)
      (eqb_filter selectedFilter all) (handleItemClick selectedFilter all);
    mkItem (str "Available") (eqb_filter selectedFilter available)
      (eqb_filter selectedFilter available)
      (handleItemClick selectedFilter available);
    mkItem (str "Installed") (eqb_filter selectedFilter installed)
      (eqb_filter selectedFilter installed)
      (handleItemClick selectedFilter installed) ].

(** A parent that keeps the filter it is told: its filter after the calls
    of [onFilterChange]. *)
Definition parent_after (selectedFilter : InstallFilter)
    (calls : list InstallFilter) : InstallFilter :=
  fold_left (fun _ filter => filter) calls selectedFilter.

End FilterToggle.

(* ===================================================================== *)
(** ** The status of an app and the install confirmation *)
(* ===================================================================== *)

Module AppStatus.
Import Lifecycle.

(** [interface StatusConfig]. *)
Record StatusConfig : Type := mkStatusConfig {
  label : jsstring;
  color : jsstring;
  installWarning : option jsstring
}.

(** The own properties of [STATUS_CONFIG]. *)
Definition STATUS_CONFIG (key : jsstring) : option StatusConfig :=
  if eqb_jsstring key (str "experimental") then
    Some (mkStatusConfig (str "Experimental") (str "orange")
            (Some (str "This app is marked as experimental and may have bugs, performance limitations, or other problems. Use at your own risk.")))
  else if eqb_jsstring key (str "beta") then
    Some (mkStatusConfig (str "Beta") (str "gold")
            (Some (str "This app is in beta. It may contain bugs or incomplete features. Use at your own risk.")))
  else if eqb_jsstring key (str "deprecated") then
    Some (mkStatusConfig (str "Deprecated") (str "grey")
            (Some (str "This app is deprecated and may be removed in a future release. Consider using an alternative.")))
  else None.

(** What [STATUS_CONFIG[status]] can be: a configuration of the table, a
    member that the table inherits as every object literal does (none of
    which has an [installWarning]), or [undefined]. *)
Inductive Found : Type :=
| Config (config : StatusConfig)
| Inherited
| Undefined.

(** [statusConfig?.installWarning], when it is truthy. *)
Definition warning_of (found : Found) : option jsstring :=
  match found with
  | Config config =>
      match installWarning config with
      | Some (c :: w) => Some (c :: w)
      | _ => None
      end
  | _ => None
  end.

(** The fields of [Package] (a type of [../api/types]) that the install
    button and the confirmation read. *)
Record Package : Type := mkPackage {
  name : jsstring;
  pkg_installed : bool;
  upgradable : bool;
  status : option jsstring
}.

(** What the buttons call. *)
Inductive Call : Type :=
| OnInstall
| OnUninstall.

(** The state of [AppDetails] that the buttons read and write, the prop
    [isActionInProgress], and the calls made so far. *)
Record Details : Type := mkDetails {
  showInstallConfirm : bool;
  isActionInProgress : bool;
  calls : list Call
}.

(** What the user and the parent can do: click one of the buttons or
    close the dialog, and change [isActionInProgress]. *)
Inductive Event : Type :=
| ClickInstall
| ClickUpdate
| ClickUninstall
| ClickInstallAnyway
| ClickCancel
| SetActionInProgress (busy : bool).

Definition count_event (p : Event -> bool) (evs : list Event) : nat :=
  length (filter p evs).

Definition is_click_install (ev : Event) : bool :=
  match ev with ClickInstall => true | _ => false end.

Definition is_install_anyway (ev : Event) : bool :=
  match ev with ClickInstallAnyway => true | _ => false end.

Section Details.

(** The names that an object literal answers to through its prototype;
    which names these are is the engine's matter. *)
Variable inherited : jsstring -> bool.

(** [export function getStatusConfig(status)]; [None] is [null] or
    [undefined]. *)
Definition getStatusConfig (status : option jsstring) : Found :=
  match status with
  | None => Undefined
  | Some [] => Undefined
  | Some key =>
      match STATUS_CONFIG key with
      | Some config => Config config
      | None => if inherited key then Inherited else Undefined
      end
  end.

Variable pkg : Package.

(** [handleInstallClick]. *)
Definition handleInstallClick (d : Details) : Details :=
  match warning_of (getStatusConfig (status pkg)) with
  | Some _ =>
      if negb (pkg_installed pkg)
      then mkDetails true (isActionInProgress d) (calls d)
      else mkDetails (showInstallConfirm d) (isActionInProgress d)
             (calls d ++ [OnInstall])
  | None =>
      mkDetails (showInstallConfirm d) (isActionInProgress d)
        (calls d ++ [OnInstall])
  end.

(** One event on the page that [AppDetails] draws for [pkg].  A button
    that is not drawn or is disabled cannot be clicked: Install is drawn
    for a package that is not installed, Update for one that is installed
    and upgradable, Uninstall for one that is installed, all three
    disabled while an action is in progress; the dialog is drawn when
    there is a warning and open when [showInstallConfirm] is set. *)
Definition step (d : Details) (ev : Event) : Details :=
  match ev with
  | ClickInstall =>
      if negb (pkg_installed pkg) && negb (isActionInProgress d)
      then handleInstallClick d else d
  | ClickUpdate =>
      if pkg_installed pkg && upgradable pkg && negb (isActionInProgress d)
      then mkDetails (showInstallConfirm d) (isActionInProgress d)
             (calls d ++ [OnInstall])
      else d
  | ClickUninstall =>
      if pkg_installed pkg && negb (isActionInProgress d)
      then mkDetails (showInstallConfirm d) (isActionInProgress d)
             (calls d ++ [OnUninstall])
      else d
  | ClickInstallAnyway =>
      match warning_of (getStatusConfig (status pkg)) with
      | Some _ =>
          if showInstallConfirm d
          then mkDetails false (isActionInProgress d) (calls d ++ [OnInstall])
          else d
      | None => d
      end
  | ClickCancel =>
      match warning_of (getStatusConfig (status pkg)) with
      | Some _ =>
          if showInstallConfirm d
          then mkDetails false (isActionInProgress d) (calls d)
          else d
      | None => d
      end
  | SetActionInProgress busy =>
      mkDetails (showInstallConfirm d) busy (calls d)
  end.

Definition run (evs : list Event) (d : Details) : Details :=
  fold_left step evs d.

End Details.

Definition is_set_busy (ev : Event) : bool :=
  match ev with SetActionInProgress _ => true | _ => false end.

(** 1 for an open dialog, 0 for a closed one. *)
Definition open_dialogs (d : Details) : nat :=
  if showInstallConfirm d then 1 else 0.

(** [AppDetails] as first drawn. *)
Definition first_drawn (busy : bool) : Details := mkDetails false busy [].

(** A sample engine, package and clicks. *)
Definition sample_inherited (key : jsstring) : bool :=
  eqb_jsstring key (str "constructor") || eqb_jsstring key (str "toString").

Definition sample_beta : Package :=
  mkPackage (str "app") false false (Some (str "beta")).

Definition sample_plain : Package :=
  mkPackage (str "app") false false (Some (str "toString")).

End AppStatus.

(* ===================================================================== *)
(** ** Sequences written from their codes *)
(* ===================================================================== *)

Module AnsiCodes.
Import Ansi.

(** [pieces.join(';')]: the parameter text whose pieces, between the
    semicolons, are [pieces]. *)
Fixpoint join_semi (pieces : list jsstring) : jsstring :=
  match pieces with
  | [] => []
  | piece :: pieces' =>
      match pieces' with
      | [] => piece
      | _ => piece ++ SEMI :: join_semi pieces'
      end
  end.

(** There is at least one piece and every piece is a run of digits (the
    empty run included). *)
Definition digit_pieces (pieces : list jsstring) : bool :=
  match pieces with
  | [] => false
  | _ => forallb (forallb is_digit) pieces
  end.

(** The well-formed sequences with the given pieces, written one after
    the other. *)
Definition sequences (seqs : list (list jsstring)) : jsstring :=
  concat (map (fun pieces => sgr (join_semi pieces)) seqs).

End AnsiCodes.

(* ===================================================================== *)
(** ** Properties of the parser *)
(* ===================================================================== *)

Module AnsiFacts.
Import Ansi.

Lemma param_char_not_m c :
  is_param_char c = true -> Ascii.eqb c LETTER_m = false.
Proof.
  intros H. destruct (Ascii.eqb_spec c LETTER_m) as [->|]; [|reflexivity].
  discriminate H.
Qed.

Lemma param_char_not_ESC c :
  is_param_char c = true -> Ascii.eqb c ESC = false.
Proof.
  intros H. destruct (Ascii.eqb_spec c ESC) as [->|]; [|reflexivity].
  discriminate H.
Qed.

(** The star never needs to give a character back: the pattern matches
    exactly a run of parameter characters that is followed by m. *)
Lemma match_params_m_intro ps rest :
  forallb is_param_char ps = true ->
  match_params_m (ps ++ LETTER_m :: rest) = Some ps.
Proof.
  induction ps as [|c ps IH]; simpl.
  - reflexivity.
  - intros H. apply andb_true_iff in H as [Hc Hps].
    rewrite Hc, (IH Hps). reflexivity.
Qed.

Lemma match_here_intro ps rest :
  forallb is_param_char ps = true ->
  match_here (ESC :: LBRACKET :: ps ++ LETTER_m :: rest) = Some ps.
Proof. intros H. simpl. apply match_params_m_intro, H. Qed.

Lemma match_params_m_after s :
  match match_params_m s with
  | Some ps => after_params s = LETTER_m :: skipn (S (length ps)) s
  | None => forall rest, after_params s <> LETTER_m :: rest
  end.
Proof.
  induction s as [|c s IH]; simpl.
  - intros rest; discriminate.
  - destruct (is_param_char c) eqn:Ec.
    + rewrite (param_char_not_m _ Ec).
      destruct (match_params_m s) as [ps|]; simpl; exact IH.
    + destruct (Ascii.eqb_spec c LETTER_m) as [->|Hne].
      * reflexivity.
      * intros rest [= Hc _]. contradiction.
Qed.

(** The recogniser written from the grammar and the regular expression of
    the code accept the same sequences. *)
Lemma drop_sgr_match_here s :
  drop_sgr s =
  match match_here s with
  | Some ps => Some (skipn (3 + length ps) s)
  | None => None
  end.
Proof.
  destruct s as [|c0 [|c1 s]]; try reflexivity.
  unfold drop_sgr, match_here.
  destruct (Ascii.eqb c0 ESC && Ascii.eqb c1 LBRACKET); [|reflexivity].
  pose proof (match_params_m_after s) as H.
  destruct (match_params_m s) as [ps|].
  - rewrite H. reflexivity.
  - destruct (after_params s) as [|c r]; [reflexivity|].
    destruct (Ascii.eqb_spec c LETTER_m) as [->|]; [|reflexivity].
    exfalso. exact (H r eq_refl).
Qed.

Lemma skipn_past ps (c : ascii) r : skipn (S (length ps)) (ps ++ c :: r) = r.
Proof. induction ps as [|p ps IH]; [reflexivity|exact IH]. Qed.

Lemma skipn_sgr ps r :
  skipn (3 + length ps) (ESC :: LBRACKET :: ps ++ LETTER_m :: r) = r.
Proof. exact (skipn_past ps LETTER_m r). Qed.

Lemma drop_sgr_iff s rest :
  drop_sgr s = Some rest <-> exists e, sgr_sequence e /\ s = e ++ rest.
Proof.
  rewrite drop_sgr_match_here. split.
  - destruct (match_here s) as [ps|] eqn:E; [|discriminate].
    intros H. assert (Hr : skipn (3 + length ps) s = rest) by congruence.
    clear H. destruct (match_here_shape _ _ E) as (r & -> & Hall).
    exists (ESC :: LBRACKET :: ps ++ [LETTER_m]). split.
    + exists ps. auto.
    + rewrite skipn_sgr in Hr. subst rest. simpl. rewrite <- app_assoc.
      reflexivity.
  - intros (e & (ps & Hall & ->) & ->).
    simpl app. rewrite <- app_assoc. simpl app.
    rewrite (match_here_intro ps rest Hall), skipn_sgr. reflexivity.
Qed.

(** *** What the search of [exec] finds *)

Lemma search_first s i m :
  search s i = Some m ->
  i <= index m
  /\ match_here (skipn (index m - i) s) = Some (group1 m)
  /\ (forall j, j < index m - i -> match_here (skipn j s) = None)
  /\ lastIndex m = index m + 3 + length (group1 m).
Proof.
  revert i. induction s as [|c s IH]; intros i; rewrite search_unfold.
  - simpl. discriminate.
  - destruct (match_here (c :: s)) as [ps|] eqn:E.
    + intros [= Hm]. subst m. cbn [index group1 lastIndex].
      rewrite Nat.sub_diag. cbn [skipn]. repeat split; auto; lia.
    + intros H. destruct (IH _ H) as (Hi & Hk & Hj & Hl).
      replace (index m - i) with (S (index m - S i)) by lia.
      repeat split; auto; [lia|].
      intros [|j] Hlt; [exact E|]. apply Hj. lia.
Qed.

Lemma search_nowhere s i :
  search s i = None -> forall j, match_here (skipn j s) = None.
Proof.
  revert i. induction s as [|c s IH]; intros i; rewrite search_unfold.
  - intros _ [|j]; reflexivity.
  - destruct (match_here (c :: s)) eqn:E; [discriminate|].
    intros H [|j]; [exact E|]. exact (IH _ H j).
Qed.

(** *** How [strip_sgr] treats plain text and sequences *)

Lemma strip_sgr_cons c s :
  strip_sgr (c :: s) =
  match drop_sgr (c :: s) with
  | Some rest => strip_sgr rest
  | None => c :: strip_sgr s
  end.
Proof.
  simp strip_sgr.
  destruct (inspect (drop_sgr (c :: s))) as [[rest|] Hd];
    simp strip_sgr; rewrite Hd; reflexivity.
Qed.

Lemma strip_sgr_plain plain s :
  (forall j, j < length plain -> match_here (skipn j (plain ++ s)) = None) ->
  strip_sgr (plain ++ s) = plain ++ strip_sgr s.
Proof.
  induction plain as [|c plain IH]; intros H; [reflexivity|].
  simpl app. rewrite strip_sgr_cons, drop_sgr_match_here.
  pose proof (H 0 ltac:(simpl; lia)) as H0. simpl in H0. simpl. rewrite H0.
  f_equal. apply IH.
  intros j Hj. apply (H (S j)). simpl. lia.
Qed.

Lemma strip_sgr_sequence s ps :
  match_here s = Some ps -> strip_sgr s = strip_sgr (skipn (3 + length ps) s).
Proof.
  intros H. destruct s as [|c s]; [discriminate|].
  rewrite strip_sgr_cons, drop_sgr_match_here, H. reflexivity.
Qed.

Lemma strip_sgr_nowhere s :
  (forall j, match_here (skipn j s) = None) -> strip_sgr s = s.
Proof.
  intros H. rewrite <- (app_nil_r s) at 1.
  rewrite strip_sgr_plain.
  - simp strip_sgr. apply app_nil_r.
  - intros j _. rewrite app_nil_r. apply H.
Qed.

Lemma concat_text_push spans sp :
  concat_text (push spans sp) = concat_text spans ++ text sp.
Proof.
  unfold concat_text, push. rewrite map_app, concat_app. simpl.
  rewrite app_nil_r. reflexivity.
Qed.

(** *** The loop, one iteration at a time *)

Lemma parse_loop_unfold text last st spans :
  parse_loop text last st spans =
  match re_exec text last with
  | Some m =>
      parse_loop text (lastIndex m)
        (apply_codes st (params_of (group1 m)))
        (if last <? index m
         then push spans (mkSpan (slice text last (index m)) (fst st) (snd st))
         else spans)
  | None =>
      if last <? length text
      then push spans (mkSpan (slice_from text last) (fst st) (snd st))
      else spans
  end.
Proof.
  rewrite parse_loop_equation_1.
  destruct (inspect (re_exec text last)) as [[m|] Hm].
  - rewrite parse_loop_clause_1_equation_1, Hm. reflexivity.
  - rewrite parse_loop_clause_1_equation_2, Hm. reflexivity.
Qed.

(** A match found from [last] splits the rest of the text into the plain
    text before it, the sequence, and the text after it. *)
Lemma re_exec_split text last m :
  re_exec text last = Some m ->
  let s := skipn last text in
  let k := index m - last in
  (slice text last (index m) = firstn k s
   /\ ((last <? index m) = false -> firstn k s = [])
   /\ (forall j, j < k -> match_here (skipn j s) = None)
   /\ match_here (skipn k s) = Some (group1 m)
   /\ skipn (lastIndex m) text = skipn (3 + length (group1 m)) (skipn k s)).
Proof.
  intros H s k. pose proof (re_exec_bounds _ _ _ H) as (Hi & _ & _ & He).
  unfold re_exec in H. destruct (last <=? length text); [|discriminate].
  destruct (search_first _ _ _ H) as (_ & Hk & Hj & _).
  repeat split; auto.
  - intros Hlt. apply Nat.ltb_ge in Hlt.
    replace k with 0 by (unfold k; lia). reflexivity.
  - unfold s, k. rewrite !skipn_skipn. f_equal. lia.
Qed.

Lemma parse_loop_concat text n :
  forall last st spans,
    length text - last <= n -> last <= length text ->
    concat_text (parse_loop text last st spans)
    = concat_text spans ++ strip_sgr (skipn last text).
Proof.
  induction n as [n IH] using lt_wf_ind. intros last st spans Hn Hle.
  rewrite parse_loop_unfold.
  destruct (re_exec text last) as [m|] eqn:Hm.
  - pose proof (re_exec_bounds _ _ _ Hm) as (Hi & Hlt & Hend & _).
    destruct (re_exec_split _ _ _ Hm) as (Hsl & Hemp & Hj & Hk & Hrest).
    rewrite (IH (length text - lastIndex m)) by lia.
    rewrite Hrest, <- (strip_sgr_sequence _ _ Hk).
    rewrite <- (firstn_skipn (index m - last) (skipn last text)) at 2.
    rewrite strip_sgr_plain.
    + destruct (last <? index m) eqn:Hlt'.
      * rewrite concat_text_push, <- app_assoc. cbn [Ansi.text].
        rewrite Hsl. reflexivity.
      * rewrite (Hemp eq_refl). reflexivity.
    + intros j Hjlt. rewrite firstn_skipn. apply Hj.
      rewrite length_firstn in Hjlt. lia.
  - unfold re_exec in Hm.
    destruct (last <=? length text) eqn:E;
      [|apply Nat.leb_gt in E; lia].
    rewrite (strip_sgr_nowhere _ (search_nowhere _ _ Hm)).
    destruct (last <? length text) eqn:Hlt.
    + rewrite concat_text_push. reflexivity.
    + apply Nat.ltb_ge in Hlt. rewrite skipn_all2 by lia.
      rewrite app_nil_r. reflexivity.
Qed.

(** C1.  For every input line, the texts of the spans that [parseAnsi]
    returns, concatenated in order, are the line with every well-formed
    escape sequence (ESC, left bracket, digits and semicolons, m) removed. *)
Theorem parseAnsi_concat_strips (line : jsstring) :
  concat_text (parseAnsi line) = strip_sgr line.
Proof.
  unfold parseAnsi.
  rewrite (parse_loop_concat line (length line)) by lia.
  reflexivity.
Qed.

(** *** Lines without any well-formed sequence *)

Lemma no_sgr_unfold s :
  no_sgr s =
  match match_here s with
  | Some _ => false
  | None => match s with [] => true | _ :: s' => no_sgr s' end
  end.
Proof.
  destruct s as [|c s]; [reflexivity|].
  cbn [no_sgr]. rewrite drop_sgr_match_here.
  destruct (match_here (c :: s)); reflexivity.
Qed.

Lemma no_sgr_search s i : no_sgr s = true <-> search s i = None.
Proof.
  revert i. induction s as [|c s IH]; intros i;
    rewrite no_sgr_unfold, search_unfold.
  - simpl. tauto.
  - destruct (match_here (c :: s)).
    + split; discriminate.
    + apply IH.
Qed.

Lemma no_sgr_nowhere s :
  no_sgr s = true -> forall j, match_here (skipn j s) = None.
Proof.
  intros H. apply (search_nowhere s 0). apply no_sgr_search, H.
Qed.

(** [no_sgr] says what its name says, in the words of the grammar. *)
Lemma no_sgr_iff s :
  no_sgr s = true <->
  (forall pre e post, s = pre ++ e ++ post -> ~ sgr_sequence e).
Proof.
  split.
  - intros H pre e post -> (ps & Hall & ->).
    pose proof (no_sgr_nowhere _ H (length pre)) as Hn.
    rewrite skipn_app, skipn_all, Nat.sub_diag in Hn. simpl in Hn.
    rewrite <- app_assoc in Hn. simpl in Hn.
    rewrite (match_params_m_intro ps post Hall) in Hn. discriminate.
  - induction s as [|c s IH]; intros H; rewrite no_sgr_unfold.
    + reflexivity.
    + destruct (match_here (c :: s)) as [ps|] eqn:E.
      * exfalso. destruct (match_here_shape _ _ E) as (rest & Hs & Hall).
        apply (H [] (sgr ps) rest).
        -- rewrite Hs. unfold sgr. simpl. rewrite <- app_assoc. reflexivity.
        -- exists ps. auto.
      * apply IH. intros pre e post Hs. apply (H (c :: pre) e post).
        rewrite Hs. reflexivity.
Qed.

(** *** A match cannot run across an escape character *)

Lemma match_params_m_cut t rest :
  match_params_m (t ++ ESC :: rest) = match_params_m t.
Proof.
  induction t as [|c t IH]; [reflexivity|].
  simpl. rewrite IH. reflexivity.
Qed.

Lemma match_here_cut c t rest :
  match_here ((c :: t) ++ ESC :: rest) = match_here (c :: t).
Proof.
  destruct t as [|c1 t]; simpl.
  - rewrite andb_false_r. reflexivity.
  - rewrite match_params_m_cut. reflexivity.
Qed.

(** From the start of a plain piece, [exec] finds the sequence that ends
    the piece. *)
Lemma search_plain_then_sgr plain ps rest i :
  no_sgr plain = true -> forallb is_param_char ps = true ->
  search (plain ++ sgr ps ++ rest) i
  = Some (mkMatch (i + length plain) ps (i + length plain + 3 + length ps)).
Proof.
  intros Hplain Hps. revert i Hplain.
  induction plain as [|c plain IH]; intros i Hplain; rewrite search_unfold.
  - unfold sgr. simpl app. rewrite <- app_assoc. simpl app.
    rewrite (match_here_intro ps rest Hps). simpl. rewrite Nat.add_0_r.
    reflexivity.
  - rewrite no_sgr_unfold in Hplain.
    unfold sgr at 1. cbn [app]. 
    change (c :: plain ++ ESC :: LBRACKET :: (ps ++ [LETTER_m]) ++ rest)
      with ((c :: plain) ++ ESC :: LBRACKET :: (ps ++ [LETTER_m]) ++ rest).
    rewrite match_here_cut.
    destruct (match_here (c :: plain)); [discriminate|].
    cbn [app]. fold (sgr ps).
    change (ESC :: LBRACKET :: (ps ++ [LETTER_m]) ++ rest)
      with (sgr ps ++ rest).
    rewrite (IH (S i) Hplain). simpl. f_equal. f_equal; lia.
Qed.

Lemma re_exec_at pre s :
  re_exec (pre ++ s) (length pre) = search s (length pre).
Proof.
  unfold re_exec. rewrite length_app.
  destruct (length pre <=? length pre + length s) eqn:E;
    [|apply Nat.leb_gt in E; lia].
  rewrite skipn_app, skipn_all, Nat.sub_diag. reflexivity.
Qed.

Lemma push_span_of spans pre plain rest st :
  (if length pre <? length pre + length plain
   then push spans
          (mkSpan (slice (pre ++ plain ++ rest) (length pre)
                         (length pre + length plain))
                  (fst st) (snd st))
   else spans)
  = spans ++ span_of plain st.
Proof.
  destruct plain as [|c plain].
  - simpl. rewrite Nat.add_0_r, Nat.ltb_irrefl, app_nil_r. reflexivity.
  - destruct (length pre <? length pre + length (c :: plain)) eqn:E;
      [|apply Nat.ltb_ge in E; simpl in E; lia].
    unfold push, slice.
    rewrite skipn_app, skipn_all, Nat.sub_diag, skipn_O, app_nil_l.
    replace (length pre + length (c :: plain) - length pre)
      with (length (c :: plain)) by lia.
    rewrite firstn_app, firstn_all, Nat.sub_diag, firstn_O, app_nil_r.
    reflexivity.
Qed.

(** The loop, started at the head of a split line's remainder, appends the
    spans of the split. *)
Lemma parse_loop_render segs tail :
  segments_ok segs tail = true ->
  forall pre st spans,
    parse_loop (pre ++ render segs tail) (length pre) st spans
    = spans ++ runs_of st segs tail.
Proof.
  unfold segments_ok. induction segs as [|[plain ps] segs IH];
    intros Hok pre st spans; rewrite parse_loop_unfold, re_exec_at.
  - simpl in Hok. cbn [render runs_of].
    rewrite (proj1 (no_sgr_search tail (length pre)) Hok).
    pose proof (push_span_of spans pre tail [] st) as Hp.
    rewrite app_nil_r in Hp. rewrite length_app.
    unfold slice_from. unfold slice in Hp.
    replace (length pre + length tail - length pre)
      with (length tail) in Hp by lia.
    rewrite skipn_app, skipn_all, Nat.sub_diag in Hp |- *.
    cbn [app skipn] in Hp |- *. rewrite firstn_all in Hp. exact Hp.
  - cbn [forallb fst snd] in Hok.
    apply andb_true_iff in Hok as [Hseg Htail].
    apply andb_true_iff in Hseg as [Hseg Hsegs].
    apply andb_true_iff in Hseg as [Hplain Hps].
    cbn [render runs_of].
    rewrite (search_plain_then_sgr plain ps (render segs tail) (length pre)
               Hplain Hps).
    cbn [index group1 lastIndex].
    rewrite push_span_of.
    replace (length pre + length plain + 3 + length ps)
      with (length (pre ++ plain ++ sgr ps))
      by (unfold sgr; rewrite !length_app; simpl; rewrite length_app;
          simpl; lia).
    replace (pre ++ plain ++ sgr ps ++ render segs tail)
      with ((pre ++ plain ++ sgr ps) ++ render segs tail)
      by (rewrite <- !app_assoc; reflexivity).
    rewrite IH.
    + rewrite <- app_assoc. reflexivity.
    + rewrite Hsegs, Htail. reflexivity.
Qed.

(** Every line is a split line. *)
Lemma every_line_splits (line : jsstring) :
  exists segs tail, segments_ok segs tail = true /\ line = render segs tail.
Proof.
  remember (length line) as n eqn:Hn.
  revert line Hn. induction n as [n IH] using lt_wf_ind. intros line Hn.
  destruct (search line 0) as [m|] eqn:Hs.
  - destruct (search_first _ _ _ Hs) as (_ & Hk & Hj & Hl).
    rewrite Nat.sub_0_r in Hk, Hj.
    destruct (match_here_shape _ _ Hk) as (rest & Hrest & Hall).
    assert (Hline : line = firstn (index m) line ++ sgr (group1 m) ++ rest).
    { rewrite <- (firstn_skipn (index m) line) at 1. rewrite Hrest.
      unfold sgr. simpl. rewrite <- app_assoc. reflexivity. }
    destruct (IH (length rest)) with (line := rest)
      as (segs & tail & Hok & Hr); [|reflexivity|].
    { subst n. pose proof (f_equal (@length ascii) Hline) as HL.
      rewrite !length_app in HL. unfold sgr in HL. simpl in HL. lia. }
    exists ((firstn (index m) line, group1 m) :: segs), tail. split.
    + unfold segments_ok in *. cbn [forallb fst snd].
      rewrite Hall. apply andb_true_iff in Hok as [Hsegs Htail].
      rewrite Hsegs, Htail, !andb_true_r.
      apply no_sgr_iff. intros pre e post Hf Hseq.
      destruct Hseq as (ps & Hps & ->).
      pose proof (Hj (length pre)) as Hnone.
      assert (Hlen : length pre < index m).
      { assert (length (firstn (index m) line) <= index m)
          by apply firstn_le_length.
        rewrite Hf in H. rewrite !length_app in H. simpl in H. lia. }
      specialize (Hnone Hlen).
      rewrite Hline, Hf in Hnone.
      rewrite <- !app_assoc in Hnone.
      rewrite skipn_app, skipn_all, Nat.sub_diag in Hnone.
      cbn [app skipn] in Hnone. rewrite <- app_assoc in Hnone.
      cbn [app] in Hnone.
      rewrite (match_here_intro ps _ Hps) in Hnone. discriminate.
    + cbn [render]. rewrite <- Hr. exact Hline.
  - exists [], line. split; [|reflexivity].
    unfold segments_ok. simpl. apply (no_sgr_search line 0), Hs.
Qed.

(** *** Parameters *)

(** Every piece of a captured group is a run of digits, so [Number] never
    answers [NaN] inside [parseAnsi]. *)
Lemma split_semi_digits ps :
  forallb is_param_char ps = true ->
  Forall (fun seg => forallb is_digit seg = true) (split_semi ps).
Proof.
  induction ps as [|c ps IH]; simpl.
  - intros _. repeat constructor.
  - intros H. apply andb_true_iff in H as [Hc Hps]. specialize (IH Hps).
    destruct (Ascii.eqb c SEMI) eqn:Ec.
    + constructor; [reflexivity|exact IH].
    + unfold is_param_char in Hc. rewrite Ec, orb_false_r in Hc.
      destruct (split_semi ps) as [|seg segs].
      * constructor; [simpl; rewrite Hc; reflexivity|constructor].
      * inversion IH; subst.
        constructor; [simpl; rewrite Hc; assumption|assumption].
Qed.

Lemma params_of_numeric ps :
  forallb is_param_char ps = true -> ~ In NaN (params_of ps).
Proof.
  intros H. destruct ps as [|c ps].
  - simpl. intros [E|[]]. discriminate.
  - unfold params_of. intros Hin. apply in_map_iff in Hin as (seg & Hn & Hin).
    pose proof (split_semi_digits _ H) as Hd.
    rewrite Forall_forall in Hd. specialize (Hd _ Hin).
    unfold Number in Hn. rewrite Hd in Hn. discriminate.
Qed.

Lemma apply_codes_app st codes1 codes2 :
  apply_codes st (codes1 ++ codes2) = apply_codes (apply_codes st codes1) codes2.
Proof. apply fold_left_app. Qed.

(** *** The cases of [ServiceLog.test.tsx]

    The embedding gives on each input of the repository's test file the
    array that the test expects. *)
Example parseAnsi_test_cases :
  parseAnsi (str "hello world") = [mkSpan (str "hello world") None false]
  /\ parseAnsi (str "") = []
  /\ parseAnsi (ESC :: str "[32mgreen text" ++ ESC :: str "[0m")
     = [mkSpan (str "green text") (Some (str "#0a0")) false]
  /\ parseAnsi (ESC :: str "[1mbold text" ++ ESC :: str "[0m")
     = [mkSpan (str "bold text") None true]
  /\ parseAnsi (ESC :: str "[31mred" ++ ESC :: str "[32mgreen"
                ++ ESC :: str "[0m")
     = [mkSpan (str "red") (Some (str "#c00")) false;
        mkSpan (str "green") (Some (str "#0a0")) false]
  /\ parseAnsi (ESC :: str "[1m" ++ ESC :: str "[33mbold yellow"
                ++ ESC :: str "[0m")
     = [mkSpan (str "bold yellow") (Some (str "#a50")) true]
  /\ parseAnsi (ESC :: str "[34mblue to the end")
     = [mkSpan (str "blue to the end") (Some (str "#00c")) false]
  /\ parseAnsi (str "before " ++ ESC :: str "[31mred" ++ ESC :: str "[0m after")
     = [mkSpan (str "before ") None false;
        mkSpan (str "red") (Some (str "#c00")) false;
        mkSpan (str " after") None false]
  /\ parseAnsi (ESC :: str "[91mbright red" ++ ESC :: str "[0m")
     = [mkSpan (str "bright red") (Some (str "#f55")) false].
Proof. repeat split; reflexivity. Qed.

(** *** The claims about the parser *)

(** C4, as amended.  [parseAnsi] is a total function, every line is a
    sequence of plain pieces separated by well-formed sequences, and on
    such a line the result is: each non-empty plain piece verbatim, as one
    span under the style in force, the style being changed by the
    parameters of the well-formed sequences and by nothing else.  A plain
    piece may hold any escape-like text that is not a well-formed
    sequence: that text is not removed, it stays in the span of its piece,
    and it leaves color and bold as they are. *)
Theorem parseAnsi_split_line :
  (forall line, exists segs tail,
      segments_ok segs tail = true /\ line = render segs tail)
  /\ (forall segs tail,
        segments_ok segs tail = true ->
        parseAnsi (render segs tail) = runs_of default_style segs tail).
Proof.
  split; [exact every_line_splits|].
  intros segs tail Hok. unfold parseAnsi.
  exact (parse_loop_render segs tail Hok [] default_style []).
Qed.

Lemma parseAnsi_split_line_witness :
  segments_ok sample_segments sample_tail = true
  /\ parseAnsi (render sample_segments sample_tail)
     = [ mkSpan (ESC :: str "[2Ja") None false;
         mkSpan (ESC :: str "[3x") (Some (str "#c00")) false;
         mkSpan (ESC :: str "[4") (Some (str "#c00")) true ].
Proof.
  split; [reflexivity|].
  apply (proj2 parseAnsi_split_line). reflexivity.
Defined.

(** C4, as stated, fails: a screen-clear sequence is not a well-formed
    sequence of the parser, and it does contribute a span, whose text it
    is. *)
Lemma malformed_sequence_gives_span :
  match_here (ESC :: str "[2J") = None
  /\ parseAnsi (ESC :: str "[2J") = [mkSpan (ESC :: str "[2J") None false]
  /\ parseAnsi (ESC :: str "[2J") <> [].
Proof.
  repeat split; try reflexivity. discriminate.
Qed.

(** C5, as amended.  For every non-empty line that contains no escape
    sequence, [parseAnsi] returns exactly one span: its text is the line,
    its color is undefined and it is not bold. *)
Theorem parseAnsi_plain_line (line : jsstring) :
  line <> [] -> no_sgr line = true ->
  parseAnsi line = [mkSpan line None false].
Proof.
  intros Hne Hno.
  assert (Hok : segments_ok [] line = true) by exact Hno.
  pose proof (parse_loop_render [] line Hok [] default_style []) as H.
  cbn [render runs_of app length] in H. unfold parseAnsi. rewrite H.
  destruct line; [contradiction|reflexivity].
Qed.

Lemma parseAnsi_plain_line_witness :
  str "hello world" <> [] /\ no_sgr (str "hello world") = true
  /\ parseAnsi (str "hello world") = [mkSpan (str "hello world") None false].
Proof.
  split; [discriminate|]. split; [reflexivity|].
  apply parseAnsi_plain_line; [discriminate|reflexivity].
Defined.

(** C5, as stated, fails at the empty line, which contains no escape
    sequence and gives no span at all. *)
Lemma parseAnsi_empty_line :
  no_sgr [] = true
  /\ parseAnsi [] = []
  /\ parseAnsi [] <> [mkSpan [] None false].
Proof.
  repeat split; try reflexivity. discriminate.
Qed.

Lemma apply_code_color st n c :
  ANSI_COLORS n = Some c -> apply_code st (Num n) = (Some c, snd st).
Proof.
  intros H. unfold apply_code.
  destruct (N.eqb_spec n 0) as [->|_]; [discriminate|].
  destruct (N.eqb_spec n 1) as [->|_]; [discriminate|].
  destruct (N.eqb_spec n 39) as [->|_]; [discriminate|].
  rewrite H. reflexivity.
Qed.

(** *** Parameter texts and their pieces *)

Lemma digit_not_semi c : is_digit c = true -> Ascii.eqb c SEMI = false.
Proof.
  intros H. destruct (Ascii.eqb_spec c SEMI) as [->|]; [|reflexivity].
  discriminate H.
Qed.

Lemma split_semi_piece piece :
  forallb is_digit piece = true -> split_semi piece = [piece].
Proof.
  induction piece as [|c piece IH]; [reflexivity|].
  cbn [forallb]. intros H. apply andb_true_iff in H as [Hc Hp].
  cbn [split_semi]. rewrite (digit_not_semi c Hc), (IH Hp). reflexivity.
Qed.

Lemma split_semi_then piece rest :
  forallb is_digit piece = true ->
  split_semi (piece ++ SEMI :: rest) = piece :: split_semi rest.
Proof.
  induction piece as [|c piece IH]; [reflexivity|].
  cbn [forallb]. intros H. apply andb_true_iff in H as [Hc Hp].
  cbn [app split_semi]. rewrite (digit_not_semi c Hc), (IH Hp). reflexivity.
Qed.

Lemma join_semi_more piece piece' pieces :
  AnsiCodes.join_semi (piece :: piece' :: pieces)
  = piece ++ SEMI :: AnsiCodes.join_semi (piece' :: pieces).
Proof. reflexivity. Qed.

(** [split] undoes [join] on pieces of digits. *)
Lemma split_join pieces :
  AnsiCodes.digit_pieces pieces = true ->
  split_semi (AnsiCodes.join_semi pieces) = pieces.
Proof.
  induction pieces as [|piece pieces IH]; [discriminate|].
  cbn [AnsiCodes.digit_pieces forallb]. intros H.
  apply andb_true_iff in H as [Hp Hps].
  destruct pieces as [|piece' pieces].
  - apply split_semi_piece, Hp.
  - rewrite join_semi_more, (split_semi_then _ _ Hp), (IH Hps).
    reflexivity.
Qed.

Lemma params_of_join pieces :
  AnsiCodes.digit_pieces pieces = true ->
  params_of (AnsiCodes.join_semi pieces) = map Number pieces.
Proof.
  intros H. pose proof (split_join pieces H) as Hs.
  destruct (AnsiCodes.join_semi pieces) as [|c ps] eqn:E.
  - cbn [split_semi] in Hs. subst pieces. reflexivity.
  - unfold params_of. rewrite Hs. reflexivity.
Qed.

Lemma join_param_chars pieces :
  forallb (forallb is_digit) pieces = true ->
  forallb is_param_char (AnsiCodes.join_semi pieces) = true.
Proof.
  assert (Hd : forall piece, forallb is_digit piece = true ->
                             forallb is_param_char piece = true).
  { induction piece as [|c piece IHp]; [reflexivity|].
    cbn [forallb]. intros H. apply andb_true_iff in H as [Hc Hp].
    unfold is_param_char at 1. rewrite Hc, (IHp Hp). reflexivity. }
  induction pieces as [|piece pieces IH]; [reflexivity|].
  cbn [forallb]. intros H. apply andb_true_iff in H as [Hp Hps].
  destruct pieces as [|piece' pieces]; [apply Hd, Hp|].
  rewrite join_semi_more, forallb_app, (Hd _ Hp).
  cbn [forallb andb]. apply IH, Hps.
Qed.

(** The sequences of [seqs] as segments with empty plain pieces. *)
Lemma sequences_render seqs text :
  AnsiCodes.sequences seqs ++ text
  = render (map (fun pieces => ([], AnsiCodes.join_semi pieces)) seqs) text.
Proof.
  unfold AnsiCodes.sequences.
  induction seqs as [|pieces seqs IH]; [reflexivity|].
  cbn [map concat render app]. rewrite <- app_assoc, IH. reflexivity.
Qed.

Lemma sequences_ok seqs text :
  forallb AnsiCodes.digit_pieces seqs = true -> no_sgr text = true ->
  segments_ok (map (fun pieces => ([], AnsiCodes.join_semi pieces)) seqs) text
  = true.
Proof.
  intros Hs Ht. unfold segments_ok. rewrite Ht, andb_true_r.
  induction seqs as [|pieces seqs IH]; [reflexivity|].
  cbn [forallb] in Hs. apply andb_true_iff in Hs as [Hp Hs].
  cbn [map forallb fst snd]. rewrite (IH Hs), andb_true_r.
  destruct pieces as [|piece pieces]; [discriminate|].
  apply (join_param_chars (piece :: pieces)), Hp.
Qed.

Lemma runs_of_sequences seqs text :
  forallb AnsiCodes.digit_pieces seqs = true ->
  forall st,
    runs_of st (map (fun pieces => ([], AnsiCodes.join_semi pieces)) seqs) text
    = span_of text (fold_left apply_code (map Number (concat seqs)) st).
Proof.
  induction seqs as [|pieces seqs IH]; intros Hs st; [reflexivity|].
  cbn [forallb] in Hs. apply andb_true_iff in Hs as [Hp Hs].
  cbn [map runs_of span_of app concat]. rewrite (IH Hs).
  rewrite (params_of_join pieces Hp), map_app, fold_left_app. reflexivity.
Qed.

(** C7.  The codes of a sequence are applied from left to right, and the
    sequences of a line in the order in which they stand: a line that
    starts with sequences written from pieces of digits gives the text
    behind them the style that results from applying the numbers of all
    the pieces, in the order of the text, one after the other to the
    default style.  So a later code overrides what an earlier one set;
    code 39 clears the color and leaves bold as it is; and the example
    lines parse as stated. *)
Theorem codes_apply_left_to_right :
  (forall seqs text,
      forallb AnsiCodes.digit_pieces seqs = true ->
      text <> [] -> no_sgr text = true ->
      parseAnsi (AnsiCodes.sequences seqs ++ text)
      = [mkSpan text
           (fst (fold_left apply_code (map Number (concat seqs)) default_style))
           (snd (fold_left apply_code (map Number (concat seqs)) default_style))])
  /\ (forall st code codes,
        apply_codes st (code :: codes) = apply_codes (apply_code st code) codes)
  /\ (forall st codes n c,
        ANSI_COLORS n = Some c ->
        apply_codes st (codes ++ [Num n])
        = (Some c, snd (apply_codes st codes)))
  /\ (forall st codes,
        apply_codes st (codes ++ [Num 1]) = (fst (apply_codes st codes), true))
  /\ (forall st, apply_code st (Num 39) = (None, snd st))
  /\ parseAnsi (ESC :: str "[1;32mbold green" ++ ESC :: str "[0m")
     = [mkSpan (str "bold green") (Some (str "#0a0")) true]
  /\ parseAnsi (ESC :: str "[31mred" ++ ESC :: str "[39m normal")
     = [mkSpan (str "red") (Some (str "#c00")) false;
        mkSpan (str " normal") None false]
  /\ parseAnsi (ESC :: str "[31;32mx")
     = [mkSpan (str "x") (Some (str "#0a0")) false]
  /\ parseAnsi (ESC :: str "[32;31mx")
     = [mkSpan (str "x") (Some (str "#c00")) false]
  /\ parseAnsi (ESC :: str "[1;31;39mx") = [mkSpan (str "x") None true].
Proof.
  split.
  { intros seqs text Hs Hne Ht. unfold parseAnsi.
    rewrite sequences_render.
    pose proof (parse_loop_render _ _ (sequences_ok seqs text Hs Ht)
                  [] default_style []) as H.
    cbn [app length] in H. rewrite H, (runs_of_sequences seqs text Hs).
    destruct text; [contradiction|reflexivity]. }
  repeat split; try reflexivity.
  - intros st codes n c H. rewrite apply_codes_app. simpl.
    apply apply_code_color, H.
  - intros st codes. rewrite apply_codes_app. reflexivity.
Qed.

Lemma codes_apply_left_to_right_witness :
  forallb AnsiCodes.digit_pieces [[str "1"; str "32"]; [str "31"; str ""; str "35"]]
  = true
  /\ str "x" <> [] /\ no_sgr (str "x") = true
  /\ parseAnsi (ESC :: str "[1;32m" ++ ESC :: str "[31;;35m" ++ str "x")
     = [mkSpan (str "x") (Some (str "#c0c")) false]
  /\ ANSI_COLORS 32 = Some (str "#0a0")
  /\ apply_codes (Some (str "#c00"), false) ([Num 1; Num 31] ++ [Num 32])
     = (Some (str "#0a0"), true).
Proof.
  assert (H1 : forallb AnsiCodes.digit_pieces
                 [[str "1"; str "32"]; [str "31"; str ""; str "35"]] = true)
    by reflexivity.
  assert (H2 : str "x" <> []) by discriminate.
  assert (H3 : no_sgr (str "x") = true) by reflexivity.
  split; [exact H1|]. split; [exact H2|]. split; [exact H3|].
  split; [exact (proj1 codes_apply_left_to_right _ _ H1 H2 H3)|].
  split; [reflexivity|].
  exact (proj1 (proj2 (proj2 codes_apply_left_to_right))
           (Some (str "#c00"), false) [Num 1; Num 31] 32%N (str "#0a0")
           eq_refl).
Defined.

(** C10.  In a well-formed sequence whose parameter text is not empty, an
    empty piece between, before or after semicolons becomes the code 0 and
    is applied as a full reset: what the earlier codes and the earlier
    sequences set is cleared there, and the style after the sequence is
    what the codes behind the empty piece make of the default style.  The
    wholly empty parameter text gives the one code 0. *)
Theorem empty_parameter_resets (ps : jsstring) (before after : list jsstring) :
  ps <> [] ->
  split_semi ps = before ++ [] :: after ->
  params_of ps = map Number before ++ Num 0 :: map Number after
  /\ (forall st,
        apply_codes st (params_of ps)
        = apply_codes default_style (map Number after))
  /\ params_of [] = [Num 0].
Proof.
  intros Hne Hsplit.
  assert (Hp : params_of ps = map Number before ++ Num 0 :: map Number after).
  { destruct ps as [|c ps]; [contradiction|].
    unfold params_of. rewrite Hsplit, map_app. reflexivity. }
  repeat split; [exact Hp|].
  intros st. rewrite Hp, apply_codes_app. reflexivity.
Qed.

(** The two sequences of the claim, each after a sequence that sets color
    and bold. *)
Lemma empty_parameter_resets_witness :
  (str "1;" <> [] /\ split_semi (str "1;") = [str "1"] ++ [] :: [])
  /\ (forall st, apply_codes st (params_of (str "1;")) = default_style)
  /\ parseAnsi (ESC :: str "[31ma" ++ ESC :: str "[1;mb")
     = [mkSpan (str "a") (Some (str "#c00")) false;
        mkSpan (str "b") None false]
  /\ parseAnsi (ESC :: str "[1;31ma" ++ ESC :: str "[;32mb")
     = [mkSpan (str "a") (Some (str "#c00")) true;
        mkSpan (str "b") (Some (str "#0a0")) false].
Proof.
  split; [split; [discriminate|reflexivity]|].
  split; [|split; reflexivity].
  intros st.
  exact (proj1 (proj2 (empty_parameter_resets (str "1;") [str "1"] []
                         ltac:(discriminate) eq_refl)) st).
Defined.

End AnsiFacts.

(* ===================================================================== *)
(** ** Properties of the log buffer and of the scroll flag *)
(* ===================================================================== *)

Module ServiceLogFacts.
Import ServiceLog.

Lemma keep_last_length {A : Type} k (l : list A) :
  length (keep_last k l) = Nat.min k (length l).
Proof. unfold keep_last. rewrite length_skipn. lia. Qed.

Lemma keep_last_all {A : Type} k (l : list A) :
  length l <= k -> keep_last k l = l.
Proof.
  intros H. unfold keep_last. replace (length l - k) with 0 by lia.
  reflexivity.
Qed.


(** Trimming early does not change what is kept in the end. *)
Lemma keep_last_app {A : Type} k (l l' : list A) :
  keep_last k (keep_last k l ++ l') = keep_last k (l ++ l').
Proof.
  unfold keep_last. set (b := length l - k).
  rewrite !length_app, length_skipn.
  replace (length l + length l' - k)
    with ((length l - b + length l' - k) + b) by lia.
  rewrite <- skipn_skipn. f_equal.
  rewrite skipn_app. replace (b - length l) with 0 by lia. reflexivity.
Qed.

(** The conditional of the updater is [keep_last]. *)
Lemma onLine_entries line st :
  entries (onLine line st)
  = keep_last MAX_LOG_LINES (entries st ++ [mkEntry (nextId st) line]).
Proof.
  unfold onLine. cbn [entries].
  destruct (MAX_LOG_LINES <? length (entries st ++ [mkEntry (nextId st) line]))
    eqn:E.
  - reflexivity.
  - apply Nat.ltb_ge in E. symmetry. apply keep_last_all, E.
Qed.

Lemma step_bounded st ev :
  length (entries st) <= MAX_LOG_LINES ->
  length (entries (step st ev)) <= MAX_LOG_LINES.
Proof.
  intros H. destruct ev as [|line|message|el]; cbn [step].
  - unfold MAX_LOG_LINES. simpl. lia.
  - rewrite onLine_entries, keep_last_length. lia.
  - exact H.
  - exact H.
Qed.

Lemma run_bounded evs st :
  length (entries st) <= MAX_LOG_LINES ->
  length (entries (run evs st)) <= MAX_LOG_LINES.
Proof.
  revert st. induction evs as [|ev evs IH]; intros st H; [exact H|].
  apply IH, step_bounded, H.
Qed.

Lemma run_lines lines :
  forall st,
    length (entries st) <= MAX_LOG_LINES ->
    entries (run (map Line lines) st)
    = keep_last MAX_LOG_LINES (entries st ++ number (nextId st) lines).
Proof.
  induction lines as [|line lines IH]; intros st H.
  - simpl. rewrite app_nil_r. symmetry. apply keep_last_all, H.
  - cbn [map run fold_left step]. fold (run (map Line lines) (onLine line st)).
    rewrite IH by (apply (step_bounded st (Line line)), H).
    rewrite onLine_entries, keep_last_app, <- app_assoc. reflexivity.
Qed.

Lemma number_length n lines : length (number n lines) = length lines.
Proof.
  revert n. induction lines as [|l lines IH]; intros n; simpl; auto.
Qed.

Lemma number_text n lines : map text (number n lines) = lines.
Proof.
  revert n. induction lines as [|l lines IH]; intros n; simpl; [|rewrite IH];
    reflexivity.
Qed.

Lemma number_id n lines : map id (number n lines) = seq n (length lines).
Proof.
  revert n. induction lines as [|l lines IH]; intros n; simpl; [|rewrite IH];
    reflexivity.
Qed.

(** What a run of lines leaves in an empty buffer. *)
Lemma run_lines_from_empty lines st :
  entries st = [] ->
  let st' := run (map Line lines) st in
  map text (entries st') = skipn (length lines - MAX_LOG_LINES) lines
  /\ map id (entries st')
     = seq (nextId st + (length lines - MAX_LOG_LINES))
           (length lines - (length lines - MAX_LOG_LINES)).
Proof.
  intros He st'. unfold st'.
  rewrite run_lines by (rewrite He; simpl; lia).
  rewrite He. cbn [app]. unfold keep_last.
  rewrite number_length, <- !skipn_map, number_text, number_id, skipn_seq.
  split; reflexivity.
Qed.

(** C2.  The buffer of a mounted component never holds more than
    [MAX_LOG_LINES] = 200 entries; and when more than 200 lines are
    delivered one at a time to an empty buffer, the buffer then holds
    exactly 200 entries, their texts are the last 200 lines in the order of
    arrival, and their ids are consecutive, rising by one from the first
    entry kept. *)
Theorem buffer_keeps_last_lines :
  MAX_LOG_LINES = 200
  /\ (forall evs, length (entries (run evs initial)) <= MAX_LOG_LINES)
  /\ (forall lines st,
        entries st = [] ->
        MAX_LOG_LINES < length lines ->
        let st' := run (map Line lines) st in
        length (entries st') = MAX_LOG_LINES
        /\ map text (entries st')
           = skipn (length lines - MAX_LOG_LINES) lines
        /\ map id (entries st')
           = seq (nextId st + (length lines - MAX_LOG_LINES)) MAX_LOG_LINES).
Proof.
  split; [reflexivity|]. split.
  - intros evs. apply run_bounded. simpl. lia.
  - intros lines st He Hlen st'.
    destruct (run_lines_from_empty lines st He) as [Ht Hi].
    fold st' in Ht, Hi.
    replace (length lines - (length lines - MAX_LOG_LINES))
      with MAX_LOG_LINES in Hi by lia.
    repeat split; [|exact Ht|exact Hi].
    rewrite <- (length_map id), Hi, length_seq. reflexivity.
Qed.

Lemma buffer_keeps_last_lines_witness :
  entries initial = [] /\ MAX_LOG_LINES < length sample_201
  /\ map id (entries (run (map Line sample_201) initial)) = seq 1 200.
Proof.
  assert (He : entries initial = []) by reflexivity.
  assert (Hl : MAX_LOG_LINES < length sample_201) by (vm_compute; lia).
  split; [exact He|]. split; [exact Hl|].
  exact (proj2 (proj2 (proj2 (proj2 buffer_keeps_last_lines) sample_201
                         initial He Hl))).
Defined.

(** C3, as amended.  After the subscription is opened and 250 lines
    without escape sequences are delivered, the buffer holds 200 entries
    and the text of its first entry is line 50, counting from 0 (the 51st
    line delivered); the spans that the panel draws for it spell that
    line. *)
Theorem first_visible_is_line_50 (lines : list jsstring) (st0 : State) :
  length lines = 250 ->
  Forall (fun line => Ansi.no_sgr line = true) lines ->
  let st := run (Subscribe :: map Line lines) st0 in
  length (entries st) = 200
  /\ option_map text (hd_error (entries st)) = nth_error lines 50
  /\ option_map (fun e => Ansi.concat_text (Ansi.parseAnsi (text e)))
                (hd_error (entries st))
     = nth_error lines 50.
Proof.
  intros Hlen Hplain st. unfold st. cbn [run fold_left step].
  fold (run (map Line lines) (clear st0)).
  destruct (run_lines_from_empty lines (clear st0) eq_refl) as [Ht Hi].
  rewrite Hlen in Ht, Hi. change (250 - MAX_LOG_LINES) with 50 in Ht, Hi.
  set (es := entries (run (map Line lines) (clear st0))) in *.
  assert (Hhd : option_map text (hd_error es) = nth_error lines 50).
  { rewrite <- hd_error_skipn, <- Ht. destruct es; reflexivity. }
  repeat split.
  - rewrite <- (length_map id), Hi, length_seq. reflexivity.
  - exact Hhd.
  - rewrite <- Hhd. destruct es as [|e es']; [reflexivity|].
    cbn [hd_error option_map]. f_equal.
    assert (Hin : In (text e) lines).
    { apply (nth_error_In lines 50). rewrite <- Hhd. reflexivity. }
    rewrite Forall_forall in Hplain. specialize (Hplain _ Hin).
    unfold Ansi.parseAnsi.
    rewrite (AnsiFacts.parse_loop_concat (text e) (length (text e))) by lia.
    apply AnsiFacts.strip_sgr_nowhere, AnsiFacts.no_sgr_nowhere, Hplain.
Qed.

Lemma first_visible_is_line_50_witness :
  length sample_250 = 250
  /\ Forall (fun line => Ansi.no_sgr line = true) sample_250
  /\ option_map text
       (hd_error (entries (run (Subscribe :: map Line sample_250) initial)))
     = Some (str "b").
Proof.
  assert (Hl : length sample_250 = 250) by reflexivity.
  assert (Hp : Forall (fun line => Ansi.no_sgr line = true) sample_250).
  { apply Forall_app. split; [apply Forall_forall; intros x Hx;
      apply repeat_spec in Hx; subst; reflexivity|].
    constructor; [reflexivity|]. apply Forall_forall; intros x Hx.
    apply repeat_spec in Hx; subst; reflexivity. }
  split; [exact Hl|]. split; [exact Hp|].
  exact (proj1 (proj2 (first_visible_is_line_50 sample_250 initial Hl Hp))).
Defined.

(** C3, as stated, fails: with 250 lines that carry their own number, the
    first visible entry is the line numbered 50, not the line numbered
    51. *)
Lemma first_visible_is_not_line_51 :
  length numbered_lines = 250
  /\ forallb Ansi.no_sgr numbered_lines = true
  /\ length (entries (run (Subscribe :: map Line numbered_lines) initial))
     = 200
  /\ option_map text
       (hd_error (entries (run (Subscribe :: map Line numbered_lines) initial)))
     = Some (str "050")
  /\ nth_error numbered_lines 51 = Some (str "051")
  /\ option_map text
       (hd_error (entries (run (Subscribe :: map Line numbered_lines) initial)))
     <> nth_error numbered_lines 51.
Proof.
  vm_compute. repeat split; discriminate.
Qed.

(** *** The scroll flag *)

Lemma atBottom_iff el :
  atBottom el = true
  <-> (scrollHeight el - scrollTop el - clientHeight el <? 30)%float = true.
Proof. unfold atBottom. tauto. Qed.

Lemma run_app evs1 evs2 st : run (evs1 ++ evs2) st = run evs2 (run evs1 st).
Proof. apply fold_left_app. Qed.

(** The flag is written by scrolls only. *)
Lemma run_flag evs :
  forall st,
    shouldAutoScroll (run evs st)
    = match last_scroll evs with
      | Some el => atBottom el
      | None => shouldAutoScroll st
      end.
Proof.
  induction evs as [|ev evs IH] using rev_ind; intros st; [reflexivity|].
  unfold last_scroll. rewrite run_app, fold_left_app. cbn [run fold_left].
  fold (last_scroll evs).
  destruct ev as [|line|message|el]; cbn [step]; try apply IH.
  reflexivity.
Qed.

(** C8.  The follow flag is created true, and after every scroll of the
    container it is true exactly when scrollHeight - scrollTop -
    clientHeight, computed as the code computes it, in floating-point
    arithmetic from left to right, is strictly below 30; nothing but a
    scroll writes it, so at any moment it is true when nothing has
    scrolled yet and it is the answer for the latest scroll otherwise. *)
Theorem follow_flag_tracks_bottom :
  shouldAutoScroll initial = true
  /\ (forall st el,
        shouldAutoScroll (handleScroll (Some el) st) = true
        <-> (scrollHeight el - scrollTop el - clientHeight el <? 30)%float
            = true)
  /\ (forall evs,
        shouldAutoScroll (run evs initial)
        = match last_scroll evs with
          | Some el => atBottom el
          | None => true
          end).
Proof.
  split; [reflexivity|]. split.
  - intros st el. cbn [handleScroll shouldAutoScroll]. apply atBottom_iff.
  - intros evs. apply (run_flag evs initial).
Qed.

(** The flag at the three sample containers: 20 units above the end of
    the content it is set, 30 units above it is not, and 30 - 2^-50 units
    above it is not either, the difference being rounded to 30. *)
Lemma follow_flag_tracks_bottom_witness :
  (scrollHeight sample_near - scrollTop sample_near - clientHeight sample_near
   <? 30)%float = true
  /\ shouldAutoScroll (handleScroll (Some sample_near) initial) = true
  /\ shouldAutoScroll (handleScroll (Some sample_far) initial) = false
  /\ shouldAutoScroll (handleScroll (Some sample_rounding) initial) = false.
Proof.
  assert (H : (scrollHeight sample_near - scrollTop sample_near
               - clientHeight sample_near <? 30)%float = true) by reflexivity.
  split; [exact H|]. split; [|split; reflexivity].
  exact (proj2 (proj1 (proj2 follow_flag_tracks_bottom) initial sample_near) H).
Defined.

(** *** The id counter *)






End ServiceLogFacts.

(* ===================================================================== *)
(** ** Properties of the stream handle *)
(* ===================================================================== *)

Module StreamFacts.
Import Stream.

Lemma closed_absorbs h i : phase h = Closed -> step h i = h.
Proof. intros H. unfold step. rewrite H. reflexivity. Qed.

Lemma closed_stays inputs : forall h, phase h = Closed -> run inputs h = h.
Proof.
  induction inputs as [|i inputs IH]; intros h H; [reflexivity|].
  cbn [run fold_left]. rewrite (closed_absorbs h i H). apply IH, H.
Qed.

Lemma close_closes h : phase (close h) = Closed.
Proof. unfold close, step. destruct (phase h) eqn:E; [reflexivity|exact E]. Qed.

Lemma fail_closes h message : phase (step h (Fail message)) = Closed.
Proof. unfold step. destruct (phase h) eqn:E; [reflexivity|exact E]. Qed.

(** A handle has released its subscription exactly when it is closed, and
    then once. *)
Lemma released_by_phase inputs :
  forall h,
    released h = match phase h with Streaming => 0 | Closed => 1 end ->
    released (run inputs h)
    = match phase (run inputs h) with Streaming => 0 | Closed => 1 end.
Proof.
  induction inputs as [|i inputs IH]; intros h H; [exact H|].
  cbn [run fold_left]. apply IH. unfold step.
  destruct (phase h) eqn:E.
  - destruct i; cbn [phase released]; lia.
  - rewrite E. exact H.
Qed.

(** C6.  Calling [close] a second time changes nothing; a handle that has
    been closed has released its subscription exactly once, and no handle
    ever releases it twice; and once [close] has returned, or the
    transport has failed, whatever arrives later, lines that were already
    on their way included, is dropped: no further callback is made. *)
Theorem close_is_idempotent_and_final :
  (forall h, close (close h) = close h)
  /\ (forall before, released (close (run before open)) = 1)
  /\ (forall before later,
        released (run later (close (run before open))) = 1)
  /\ (forall inputs, released (run inputs open) <= 1)
  /\ (forall before later,
        calls (run later (close (run before open)))
        = calls (run before open))
  /\ (forall before message later,
        run later (step (run before open) (Fail message))
        = step (run before open) (Fail message)).
Proof.
  assert (Hrel : forall inputs,
             released (run inputs open)
             = match phase (run inputs open) with
               | Streaming => 0 | Closed => 1 end)
    by (intros inputs; apply released_by_phase; reflexivity).
  assert (Hclose : forall before, released (close (run before open)) = 1).
  { intros before. specialize (Hrel before). unfold close, step.
    destruct (phase (run before open)) eqn:E; cbn [released].
    - rewrite Hrel. reflexivity.
    - exact Hrel. }
  repeat split.
  - intros h. apply closed_absorbs, close_closes.
  - exact Hclose.
  - intros before later. rewrite closed_stays by apply close_closes.
    apply Hclose.
  - intros inputs. rewrite Hrel. destruct (phase (run inputs open)); lia.
  - intros before later. rewrite closed_stays by apply close_closes.
    unfold close, step. destruct (phase (run before open)); reflexivity.
  - intros before message later. apply closed_stays, fail_closes.
Qed.

End StreamFacts.

(* ===================================================================== *)
(** ** More about the parser: what its spans can be *)
(* ===================================================================== *)

Module AnsiSpans.
Import Ansi AnsiFacts AnsiStyles.

(** Every line parses as one of its splits. *)
Lemma parseAnsi_by_split (line : jsstring) :
  exists segs tail,
    segments_ok segs tail = true /\ line = render segs tail
    /\ parseAnsi line = runs_of default_style segs tail.
Proof.
  destruct (every_line_splits line) as (segs & tail & Hok & ->).
  exists segs, tail. repeat split; [exact Hok|].
  exact (parse_loop_render segs tail Hok [] default_style []).
Qed.

Lemma span_of_nonempty plain st :
  Forall (fun sp => text sp <> []) (span_of plain st).
Proof.
  destruct plain; simpl; repeat constructor. discriminate.
Qed.

Lemma runs_of_nonempty segs tail :
  forall st, Forall (fun sp => text sp <> []) (runs_of st segs tail).
Proof.
  induction segs as [|[plain ps] segs IH]; intros st; cbn [runs_of].
  - apply span_of_nonempty.
  - apply Forall_app. split; [apply span_of_nonempty|apply IH].
Qed.

Lemma concat_nonempty_length (spans : list AnsiSpan) :
  Forall (fun sp => text sp <> []) spans ->
  length spans <= length (concat_text spans).
Proof.
  unfold concat_text. induction 1 as [|sp spans Hsp _ IH]; simpl; [lia|].
  rewrite length_app. destruct (text sp); [contradiction|]. simpl. lia.
Qed.

Lemma strip_sgr_length s : length (strip_sgr s) <= length s.
Proof.
  remember (length s) as n eqn:Hn. revert s Hn.
  induction n as [n IH] using lt_wf_ind. intros s Hn.
  destruct s as [|c s]; [simp strip_sgr; simpl; lia|].
  rewrite strip_sgr_cons.
  destruct (drop_sgr (c :: s)) as [rest|] eqn:Hd.
  - pose proof (drop_sgr_length _ _ Hd) as Hlt.
    pose proof (IH (length rest) ltac:(lia) rest eq_refl). lia.
  - simpl in *. pose proof (IH (length s) ltac:(lia) s eq_refl). lia.
Qed.

Lemma parseAnsi_concat (line : jsstring) :
  concat_text (parseAnsi line) = strip_sgr line.
Proof.
  unfold parseAnsi.
  rewrite (parse_loop_concat line (length line)) by lia. reflexivity.
Qed.

(** X1.  [parseAnsi] never returns a span with an empty text, so a line
    gives at most as many spans as it has visible characters, and those
    are at most the characters of the line. *)
Theorem spans_are_never_empty (line : jsstring) :
  Forall (fun sp => text sp <> []) (parseAnsi line)
  /\ length (parseAnsi line) <= length (strip_sgr line)
  /\ length (strip_sgr line) <= length line.
Proof.
  assert (H : Forall (fun sp => text sp <> []) (parseAnsi line)).
  { destruct (parseAnsi_by_split line) as (segs & tail & _ & _ & ->).
    apply runs_of_nonempty. }
  repeat split; [exact H| |apply strip_sgr_length].
  rewrite <- parseAnsi_concat. apply concat_nonempty_length, H.
Qed.

Lemma spans_are_never_empty_witness :
  parseAnsi (ESC :: str "[31m" ++ ESC :: str "[0mab" ++ ESC :: str "[1m")
  = [mkSpan (str "ab") None false]
  /\ Forall (fun sp => text sp <> [])
            (parseAnsi (ESC :: str "[31m" ++ ESC :: str "[0mab"
                        ++ ESC :: str "[1m")).
Proof.
  split; [reflexivity|].
  exact (proj1 (spans_are_never_empty _)).
Defined.

(** X3.  A line gives no span at all exactly when nothing of it is left
    once its escape sequences are removed. *)
Theorem no_span_iff_nothing_visible (line : jsstring) :
  parseAnsi line = [] <-> strip_sgr line = [].
Proof.
  rewrite <- parseAnsi_concat. split.
  - intros ->. reflexivity.
  - intros Hc.
    assert (H : Forall (fun sp => text sp <> []) (parseAnsi line)).
    { destruct (parseAnsi_by_split line) as (segs & tail & _ & _ & ->).
      apply runs_of_nonempty. }
    apply concat_nonempty_length in H. rewrite Hc in H.
    destruct (parseAnsi line); [reflexivity|simpl in H; lia].
Qed.

Lemma no_span_iff_nothing_visible_witness :
  strip_sgr (ESC :: str "[1;31m" ++ ESC :: str "[0m") = []
  /\ parseAnsi (ESC :: str "[1;31m" ++ ESC :: str "[0m") = [].
Proof.
  assert (H : strip_sgr (ESC :: str "[1;31m" ++ ESC :: str "[0m") = [])
    by reflexivity.
  split; [exact H|].
  exact (proj2 (no_span_iff_nothing_visible _) H).
Defined.

(** *** Colors *)

Lemma apply_code_from_table st code :
  from_table (fst st) -> from_table (fst (apply_code st code)).
Proof.
  intros H. destruct code as [n|]; [|exact H]. unfold apply_code.
  destruct (n =? 0)%N; [exact I|].
  destruct (n =? 1)%N; [exact H|].
  destruct (n =? 39)%N; [exact I|].
  destruct (ANSI_COLORS n) as [c|] eqn:E; [|exact H].
  simpl. exists n. exact E.
Qed.

Lemma apply_codes_from_table codes :
  forall st, from_table (fst st) -> from_table (fst (apply_codes st codes)).
Proof.
  induction codes as [|code codes IH]; intros st H; [exact H|].
  apply IH, apply_code_from_table, H.
Qed.

Lemma runs_of_from_table segs tail :
  forall st,
    from_table (fst st) ->
    Forall (fun sp => from_table (color sp)) (runs_of st segs tail).
Proof.
  assert (Hspan : forall plain st,
             from_table (fst st) ->
             Forall (fun sp => from_table (color sp)) (span_of plain st)).
  { intros [|c plain] st H; simpl; repeat constructor. exact H. }
  induction segs as [|[plain ps] segs IH]; intros st H; cbn [runs_of].
  - apply Hspan, H.
  - apply Forall_app. split; [apply Hspan, H|].
    apply IH, apply_codes_from_table, H.
Qed.

Lemma ANSI_COLORS_nonempty n css : ANSI_COLORS n = Some css -> css <> [].
Proof.
  intros H ->. destruct n as [|p]; [discriminate|].
  do 8 (try (destruct p as [p|p|]; try discriminate)).
Qed.

Lemma parseAnsi_colors (line : jsstring) :
  Forall (fun sp =>
            match color sp with
            | None => True
            | Some css => css <> [] /\ exists n, ANSI_COLORS n = Some css
            end)
         (parseAnsi line).
Proof.
  destruct (parseAnsi_by_split line) as (segs & tail & _ & _ & ->).
  pose proof (runs_of_from_table segs tail default_style I) as H.
  eapply Forall_impl; [|exact H]. intros sp Hsp. cbv beta in Hsp.
  destruct (color sp) as [css|]; [|exact I].
  split; [|exact Hsp]. destruct Hsp as (n & Hn).
  exact (ANSI_COLORS_nonempty n css Hn).
Qed.

(** X2.  Whatever the line holds, the color of a span is undefined or one
    of the sixteen strings of [ANSI_COLORS], which are not empty: no text
    of the line ever becomes a color. *)
Theorem span_colors_come_from_table (line : jsstring) (sp : AnsiSpan) :
  In sp (parseAnsi line) ->
  match color sp with
  | None => True
  | Some css => css <> [] /\ exists n, ANSI_COLORS n = Some css
  end.
Proof.
  intros Hin. pose proof (parseAnsi_colors line) as H.
  rewrite Forall_forall in H. exact (H sp Hin).
Qed.

Lemma span_colors_come_from_table_witness :
  In (mkSpan (str "x") (Some (str "#f5f")) false)
     (parseAnsi (ESC :: str "[95;7mx"))
  /\ str "#f5f" <> [] /\ exists n, ANSI_COLORS n = Some (str "#f5f").
Proof.
  assert (Hin : In (mkSpan (str "x") (Some (str "#f5f")) false)
                   (parseAnsi (ESC :: str "[95;7mx")))
    by (left; reflexivity).
  split; [exact Hin|].
  exact (span_colors_come_from_table _ _ Hin).
Defined.

(** *** Joining lines at a sequence *)

Lemma render_join segs1 plain ps segs2 tail :
  render (segs1 ++ (plain, ps) :: segs2) tail
  = render segs1 plain ++ sgr ps ++ render segs2 tail.
Proof.
  induction segs1 as [|[p q] segs1 IH]; cbn [app render]; [reflexivity|].
  rewrite IH, <- !app_assoc. reflexivity.
Qed.

Lemma runs_of_join segs1 plain ps segs2 tail :
  forall st,
    runs_of st (segs1 ++ (plain, ps) :: segs2) tail
    = runs_of st segs1 plain
      ++ runs_of (apply_codes (style_after st segs1) (params_of ps)) segs2 tail.
Proof.
  induction segs1 as [|[p q] segs1 IH]; intros st; cbn [app runs_of];
    [reflexivity|].
  rewrite IH, <- app_assoc. reflexivity.
Qed.

Lemma segments_ok_join segs1 plain ps segs2 tail :
  segments_ok segs1 plain = true ->
  forallb is_param_char ps = true ->
  segments_ok segs2 tail = true ->
  segments_ok (segs1 ++ (plain, ps) :: segs2) tail = true.
Proof.
  unfold segments_ok. intros H1 Hps H2.
  apply andb_true_iff in H1 as [H1 Hplain].
  apply andb_true_iff in H2 as [H2 Htail].
  apply andb_true_iff. split; [|exact Htail].
  rewrite forallb_app. apply andb_true_iff. split; [exact H1|].
  cbn [forallb fst snd]. rewrite Hplain, Hps. exact H2.
Qed.

Lemma parse_loop_split segs tail st :
  segments_ok segs tail = true ->
  parse_loop (render segs tail) 0 st [] = runs_of st segs tail.
Proof. intros Hok. exact (parse_loop_render segs tail Hok [] st []). Qed.

(** A sequence between two lines: the first line parses as on its own,
    the second as on its own but started in the style that the sequence
    leaves. *)
Lemma parseAnsi_join (a ps b : jsstring) :
  forallb is_param_char ps = true ->
  exists st,
    parseAnsi (a ++ sgr ps ++ b)
    = parseAnsi a ++ parse_loop b 0 (apply_codes st (params_of ps)) []
    /\ (a = [] -> st = default_style).
Proof.
  intros Hps.
  destruct (every_line_splits a) as (segs1 & plain & Hok1 & ->).
  destruct (every_line_splits b) as (segs2 & tail & Hok2 & ->).
  exists (style_after default_style segs1). split.
  - rewrite <- render_join. unfold parseAnsi.
    rewrite (parse_loop_split _ _ _ (segments_ok_join _ _ _ _ _ Hok1 Hps Hok2)).
    rewrite (parse_loop_split _ _ _ Hok1), (parse_loop_split _ _ _ Hok2).
    apply runs_of_join.
  - intros Ha. destruct segs1 as [|[p q] segs1]; [reflexivity|].
    exfalso. cbn [render] in Ha. unfold sgr in Ha.
    destruct p; discriminate Ha.
Qed.

(** X4.  A sequence whose codes end in a full reset cuts the line in two:
    the spans of the whole line are the spans of what stands before the
    sequence followed by the spans of what stands after it, each parsed
    on its own. *)
Theorem reset_cuts_the_line (a ps b : jsstring) :
  forallb is_param_char ps = true ->
  (forall st, apply_codes st (params_of ps) = default_style) ->
  parseAnsi (a ++ sgr ps ++ b) = parseAnsi a ++ parseAnsi b.
Proof.
  intros Hps Hreset. destruct (parseAnsi_join a ps b Hps) as (st & H & _).
  rewrite H, Hreset. reflexivity.
Qed.

Lemma reset_cuts_the_line_witness :
  forallb is_param_char (str "1;0") = true
  /\ (forall st, apply_codes st (params_of (str "1;0")) = default_style)
  /\ parseAnsi ((ESC :: str "[31mred") ++ sgr (str "1;0")
                ++ (str "plain" ++ ESC :: str "[1mbold"))
     = parseAnsi (ESC :: str "[31mred")
       ++ parseAnsi (str "plain" ++ ESC :: str "[1mbold").
Proof.
  assert (H1 : forallb is_param_char (str "1;0") = true) by reflexivity.
  assert (H2 : forall st, apply_codes st (params_of (str "1;0"))
                          = default_style) by (intros st; reflexivity).
  split; [exact H1|]. split; [exact H2|].
  exact (reset_cuts_the_line _ _ _ H1 H2).
Defined.

(** X5.  A sequence at the very start of a line only sets the style in
    which the rest of the line is parsed; when its codes leave the default
    style as it is (unknown codes, resets), the line parses as if the
    sequence were not there. *)
Theorem leading_sequence_sets_style (ps b : jsstring) :
  forallb is_param_char ps = true ->
  parseAnsi (sgr ps ++ b)
  = parse_loop b 0 (apply_codes default_style (params_of ps)) []
  /\ (apply_codes default_style (params_of ps) = default_style ->
      parseAnsi (sgr ps ++ b) = parseAnsi b).
Proof.
  intros Hps. destruct (parseAnsi_join [] ps b Hps) as (st & H & Hst).
  rewrite (Hst eq_refl) in H. cbn [app] in H.
  change (parseAnsi []) with (@nil AnsiSpan) in H. cbn [app] in H.
  split; [exact H|]. intros Hnoop. rewrite H, Hnoop. reflexivity.
Qed.

Lemma leading_sequence_sets_style_witness :
  forallb is_param_char (str "38;5;196") = true
  /\ apply_codes default_style (params_of (str "38;5;196")) = default_style
  /\ parseAnsi (sgr (str "38;5;196") ++ str "text") = parseAnsi (str "text").
Proof.
  assert (H1 : forallb is_param_char (str "38;5;196") = true) by reflexivity.
  assert (H2 : apply_codes default_style (params_of (str "38;5;196"))
               = default_style) by reflexivity.
  split; [exact H1|]. split; [exact H2|].
  exact (proj2 (leading_sequence_sets_style _ (str "text") H1) H2).
Defined.

End AnsiSpans.

(* ===================================================================== *)
(** ** Properties of what the log panel draws *)
(* ===================================================================== *)

Module LogViewFacts.
Import ServiceLog LogView ServiceLogFacts.

(** *** [AnsiLine] *)

Lemma map_indexed_text spans :
  forall k, map node_text (map_indexed render_span spans k) = map Ansi.text spans.
Proof.
  induction spans as [|sp spans IH]; intros k; cbn [map_indexed map];
    [reflexivity|].
  rewrite IH. f_equal. unfold render_span.
  destruct (negb (truthy (Ansi.color sp)) && negb (Ansi.bold sp)); reflexivity.
Qed.

Lemma map_indexed_keys spans :
  forall k, map node_key (map_indexed render_span spans k)
            = seq k (length spans).
Proof.
  induction spans as [|sp spans IH]; intros k; cbn [map_indexed map length seq];
    [reflexivity|].
  rewrite IH. f_equal. unfold render_span.
  destruct (negb (truthy (Ansi.color sp)) && negb (Ansi.bold sp)); reflexivity.
Qed.

Lemma nth_error_map_indexed {A B : Type} (f : A -> nat -> B) l :
  forall k i,
    nth_error (map_indexed f l k) i
    = option_map (fun x => f x (k + i)) (nth_error l i).
Proof.
  induction l as [|x l IH]; intros k [|i]; cbn [map_indexed nth_error option_map];
    try reflexivity.
  - rewrite Nat.add_0_r. reflexivity.
  - rewrite IH. replace (S k + i) with (k + S i) by lia. reflexivity.
Qed.

(** X6.  The elements that [AnsiLine] draws for a line spell the line
    without its escape sequences; their keys are 0, 1, 2, ...; and the
    element of a span is a bare fragment when the span has no color and
    is not bold, and otherwise a [span] whose style holds exactly the
    color of the span and a bold font weight when the span is bold. *)
Theorem AnsiLine_draws_the_spans (line : jsstring) :
  concat (map node_text (AnsiLine line)) = Ansi.strip_sgr line
  /\ map node_key (AnsiLine line) = seq 0 (length (Ansi.parseAnsi line))
  /\ (forall i sp,
        nth_error (Ansi.parseAnsi line) i = Some sp ->
        nth_error (AnsiLine line) i
        = Some (match Ansi.color sp, Ansi.bold sp with
                | None, false => Fragment i (Ansi.text sp)
                | c, b =>
                    SpanElement i
                      (mkCSS c (if b then Some (str "bold") else None))
                      (Ansi.text sp)
                end)).
Proof.
  unfold AnsiLine. repeat split.
  - rewrite map_indexed_text. apply AnsiSpans.parseAnsi_concat.
  - apply map_indexed_keys.
  - intros i sp Hsp. rewrite nth_error_map_indexed, Hsp. cbn [option_map].
    f_equal. cbn [Nat.add].
    pose proof (AnsiSpans.parseAnsi_colors line) as Hc.
    rewrite Forall_forall in Hc.
    specialize (Hc sp (nth_error_In _ _ Hsp)).
    unfold render_span.
    destruct (Ansi.color sp) as [[|c css]|]; [destruct Hc as [[] _]| |];
      destruct (Ansi.bold sp); reflexivity.
Qed.

Lemma AnsiLine_draws_the_spans_witness :
  nth_error (Ansi.parseAnsi (str "a" ++ Ansi.ESC :: str "[1;32mb")) 1
  = Some (Ansi.mkSpan (str "b") (Some (str "#0a0")) true)
  /\ nth_error (AnsiLine (str "a" ++ Ansi.ESC :: str "[1;32mb")) 1
     = Some (SpanElement 1 (mkCSS (Some (str "#0a0")) (Some (str "bold")))
               (str "b")).
Proof.
  assert (H : nth_error (Ansi.parseAnsi (str "a" ++ Ansi.ESC :: str "[1;32mb")) 1
              = Some (Ansi.mkSpan (str "b") (Some (str "#0a0")) true))
    by reflexivity.
  split; [exact H|].
  exact (proj2 (proj2 (AnsiLine_draws_the_spans _)) 1 _ H).
Defined.

(** *** The ids in the buffer *)

Lemma keep_last_map {A B : Type} (f : A -> B) k (l : list A) :
  map f (keep_last k l) = keep_last k (map f l).
Proof. unfold keep_last. rewrite skipn_map, length_map. reflexivity. Qed.

Lemma step_ids_in_step st ev : ids_in_step st -> ids_in_step (step st ev).
Proof.
  intros [Hle Hids]. destruct ev as [|line|message|el]; cbn [step].
  - split; [simpl; lia|reflexivity].
  - unfold ids_in_step. rewrite onLine_entries, keep_last_length.
    rewrite length_app. cbn [length onLine nextId].
    split; [lia|].
    rewrite keep_last_map, map_app, Hids. cbn [map id].
    replace (nextId st) with ((nextId st - length (entries st))
                              + length (entries st)) at 2 by lia.
    rewrite <- seq_S. unfold keep_last. rewrite length_seq, skipn_seq.
    f_equal; lia.
  - split; assumption.
  - split; assumption.
Qed.

Lemma run_ids_in_step evs :
  forall st, ids_in_step st -> ids_in_step (run evs st).
Proof.
  induction evs as [|ev evs IH]; intros st H; [exact H|].
  apply IH, step_ids_in_step, H.
Qed.

(** X7.  Whatever has happened to a mounted component, the ids of the
    entries in its buffer are consecutive numbers that end just below the
    counter; so they rise along the buffer and no two entries share an id,
    which is the key of their row. *)
Theorem buffer_ids_are_consecutive (evs : list Event) :
  map id (entries (run evs initial))
  = seq (nextId (run evs initial) - length (entries (run evs initial)))
        (length (entries (run evs initial)))
  /\ NoDup (map id (entries (run evs initial)))
  /\ (forall e, In e (entries (run evs initial)) ->
                id e < nextId (run evs initial)).
Proof.
  destruct (run_ids_in_step evs initial) as [Hle Hids];
    [split; [simpl; lia|reflexivity]|].
  split; [exact Hids|]. split.
  - rewrite Hids. apply seq_NoDup.
  - intros e He. apply (in_map id) in He. rewrite Hids in He.
    apply in_seq in He. lia.
Qed.

Lemma buffer_ids_are_consecutive_witness :
  In (mkEntry 2 (str "c"))
     (entries (run (sample_before ++ sample_after) initial))
  /\ 2 < nextId (run (sample_before ++ sample_after) initial).
Proof.
  assert (H : In (mkEntry 2 (str "c"))
                 (entries (run (sample_before ++ sample_after) initial)))
    by (right; right; left; reflexivity).
  split; [exact H|].
  exact (proj2 (proj2 (buffer_ids_are_consecutive _)) _ H).
Defined.

(** *** The lines in the buffer *)

Lemma run_texts evs :
  forall st,
    none_is is_subscribe evs = true ->
    length (entries st) <= MAX_LOG_LINES ->
    map text (entries (run evs st))
    = keep_last MAX_LOG_LINES (map text (entries st) ++ lines_of evs).
Proof.
  induction evs as [|ev evs IH]; intros st Hno Hle.
  - cbn [run fold_left lines_of]. rewrite app_nil_r. symmetry.
    apply keep_last_all. rewrite length_map. exact Hle.
  - cbn [none_is forallb] in Hno. apply andb_true_iff in Hno as [Hev Hno].
    cbn [run fold_left]. fold (run evs (step st ev)).
    rewrite (IH (step st ev) Hno (step_bounded st ev Hle)).
    destruct ev as [|line|message|el]; cbn [step lines_of];
      try reflexivity; [discriminate Hev|].
    rewrite onLine_entries, keep_last_map, map_app. cbn [map text].
    rewrite keep_last_app, <- app_assoc. reflexivity.
Qed.

(** X8.  Between two subscriptions the buffer holds the texts of the last
    200 lines delivered since the first of them, in order, whatever errors
    and scrolls came in between; as long as no more than 200 lines have
    been delivered, it holds them all. *)
Theorem buffer_holds_latest_lines (evs : list Event) (st0 : State) :
  none_is is_subscribe evs = true ->
  map text (entries (run evs (clear st0)))
  = keep_last MAX_LOG_LINES (lines_of evs)
  /\ (length (lines_of evs) <= MAX_LOG_LINES ->
      map text (entries (run evs (clear st0))) = lines_of evs).
Proof.
  intros Hno.
  assert (H : map text (entries (run evs (clear st0)))
              = keep_last MAX_LOG_LINES (lines_of evs)).
  { rewrite (run_texts evs (clear st0) Hno); [reflexivity|].
    simpl. lia. }
  split; [exact H|]. intros Hle. rewrite H. apply keep_last_all, Hle.
Qed.

Lemma buffer_holds_latest_lines_witness :
  none_is is_subscribe
    [Line (str "a"); Error (str "e"); Line (str "b"); Scroll sample_far] = true
  /\ map text
       (entries
          (run [Line (str "a"); Error (str "e"); Line (str "b");
                Scroll sample_far]
               (clear initial)))
     = [str "a"; str "b"].
Proof.
  assert (H : none_is is_subscribe
                [Line (str "a"); Error (str "e"); Line (str "b");
                 Scroll sample_far] = true) by reflexivity.
  split; [exact H|].
  exact (proj2 (buffer_holds_latest_lines _ initial H)
           ltac:(unfold MAX_LOG_LINES; simpl; lia)).
Defined.

(** *** The failure message *)

Lemma run_error evs :
  forall st,
    none_is is_subscribe evs = true -> none_is is_error evs = true ->
    error (run evs st) = error st.
Proof.
  induction evs as [|ev evs IH]; intros st Hs He; [reflexivity|].
  cbn [none_is forallb] in Hs, He.
  apply andb_true_iff in Hs as [Hs1 Hs]. apply andb_true_iff in He as [He1 He].
  cbn [run fold_left]. fold (run evs (step st ev)). rewrite (IH _ Hs He).
  destruct ev; try reflexivity; discriminate.
Qed.

(** The buffer and the counter go their way whatever the error and the
    flag are. *)
Lemma run_entries_independent evs :
  forall st st',
    entries st = entries st' -> nextId st = nextId st' ->
    entries (run evs st) = entries (run evs st')
    /\ nextId (run evs st) = nextId (run evs st').
Proof.
  induction evs as [|ev evs IH]; intros st st' He Hn; [split; assumption|].
  cbn [run fold_left]. apply IH; destruct ev; cbn [step]; try assumption;
    try reflexivity.
  - unfold onLine. cbn [entries]. rewrite He, Hn. reflexivity.
  - unfold onLine. cbn [nextId]. rewrite Hn. reflexivity.
Qed.

(** X9.  Once an error with a message that is not empty has been
    reported, the panel shows the failure message with it until the next
    subscription or error, whatever lines arrive; the lines are stored all
    the same; the next subscription shows the empty notice again; and an
    error whose message is the empty string shows no failure at all. *)
Theorem failure_message_stays
    (c : Ascii.ascii) (message : jsstring) (evs : list Event) (st : State) :
  none_is is_subscribe evs = true ->
  none_is is_error evs = true ->
  body (run evs (onError (c :: message) st)) = Failure (c :: message)
  /\ entries (run evs (onError (c :: message) st)) = entries (run evs st)
  /\ body (clear (run evs (onError (c :: message) st))) = NoEntriesYet
  /\ body (onError [] st) = body (mkState (entries st) None
                                          (shouldAutoScroll st) (nextId st)).
Proof.
  intros Hs He. repeat split.
  - unfold body. rewrite (run_error evs _ Hs He). reflexivity.
  - apply run_entries_independent; reflexivity.
Qed.

Lemma failure_message_stays_witness :
  none_is is_subscribe [Line (str "late")] = true
  /\ none_is is_error [Line (str "late")] = true
  /\ body (run [Line (str "late")] (onError (str "gone") initial))
     = Failure (str "gone").
Proof.
  assert (H1 : none_is is_subscribe [Line (str "late")] = true) by reflexivity.
  assert (H2 : none_is is_error [Line (str "late")] = true) by reflexivity.
  split; [exact H1|]. split; [exact H2|].
  exact (proj1 (failure_message_stays "g"%char (str "one") _ initial H1 H2)).
Defined.

(** *** Following the end of the log *)

Lemma last_scroll_none evs :
  none_is is_scroll evs = true -> last_scroll evs = None.
Proof.
  unfold last_scroll. generalize (@None Element) as acc.
  induction evs as [|ev evs IH]; intros acc H; [reflexivity|].
  cbn [none_is forallb] in H. apply andb_true_iff in H as [H1 H].
  cbn [fold_left]. destruct ev; try (apply IH; exact H). discriminate.
Qed.

(** X10.  After the container has scrolled, and until it scrolls again,
    the effect that runs when the entries change brings the end of the log
    into view exactly when the end marker is on the page and that scroll
    found scrollHeight - scrollTop - clientHeight, computed in
    floating-point arithmetic as the code computes it, below 30: lines,
    errors and subscriptions in between do not change this. *)
Theorem follow_decided_by_last_scroll
    (el : Element) (evs : list Event) (st : State) (logEnd : bool) :
  none_is is_scroll evs = true ->
  scrollsIntoView (run evs (handleScroll (Some el) st)) logEnd
  = atBottom el && logEnd
  /\ (scrollsIntoView (run evs (handleScroll (Some el) st)) true = true
      <-> (scrollHeight el - scrollTop el - clientHeight el <? 30)%float
          = true).
Proof.
  intros H.
  assert (Hflag : shouldAutoScroll (run evs (handleScroll (Some el) st))
                  = atBottom el).
  { rewrite run_flag, (last_scroll_none evs H). reflexivity. }
  unfold scrollsIntoView. rewrite Hflag. split; [reflexivity|].
  rewrite andb_true_r. apply atBottom_iff.
Qed.

Lemma follow_decided_by_last_scroll_witness :
  none_is is_scroll [Line (str "a"); Line (str "b")] = true
  /\ scrollsIntoView
       (run [Line (str "a"); Line (str "b")]
            (handleScroll (Some sample_far) initial)) true
     = false.
Proof.
  assert (H : none_is is_scroll [Line (str "a"); Line (str "b")] = true)
    by reflexivity.
  split; [exact H|].
  exact (proj1 (follow_decided_by_last_scroll sample_far _ initial true H)).
Defined.

End LogViewFacts.

(* ===================================================================== *)
(** ** Properties of the subscription effect *)
(* ===================================================================== *)

Module LifecycleFacts.
Import Lifecycle.

Lemma eqb_jsstring_eq a b : eqb_jsstring a b = true <-> a = b.
Proof.
  revert b. induction a as [|x a IH]; intros [|y b]; simpl;
    try (split; [discriminate|discriminate]); [tauto|].
  rewrite andb_true_iff, Ascii.eqb_eq, IH. split.
  - intros [-> ->]. reflexivity.
  - intros [= -> ->]. auto.
Qed.

Lemma scan_app cs1 :
  forall cs2 next open,
    scan (cs1 ++ cs2) next open
    = match scan cs1 next open with
      | Some (next', open') => scan cs2 next' open'
      | None => None
      end.
Proof.
  induction cs1 as [|call cs1 IH]; intros cs2 next open; [reflexivity|].
  cbn [app scan]. destruct call as [| |h package|origin h]; try apply IH.
  - destruct open; [reflexivity|]. destruct (h =? next); [apply IH|reflexivity].
  - destruct open as [[h' p]|]; [|reflexivity].
    destruct (h =? h'); [apply IH|reflexivity].
Qed.

Lemma mount_consistent package initialExpanded :
  consistent (mount package initialExpanded).
Proof. destruct initialExpanded; repeat split. Qed.

Lemma cleanup_then_effect_consistent e p sr cl f cs e' p' :
  consistent (mkComponent true e p sr cl f cs) ->
  consistent (effect (run_cleanup (mkComponent true e' p' sr cl f cs))).
Proof.
  intros (Hscan & Hcl & Hsome & Hall).
  cbn [calls fresh streamRef cleanup mounted isExpanded packageName] in *.
  subst cl. unfold run_cleanup, effect, consistent.
  destruct sr as [h|], e';
    cbn [calls fresh streamRef cleanup mounted isExpanded packageName
         option_map negb is_open andb] in *;
    rewrite <- ?app_assoc, ?scan_app, ?Hscan, ?forallb_app, ?Hall;
    cbn [app scan forallb from_cleanup andb];
    rewrite ?Nat.eqb_refl; repeat split; try assumption.
Qed.

Lemma step_consistent c ev : consistent c -> consistent (step c ev).
Proof.
  intros H. unfold step. destruct (mounted c) eqn:Hm; cbn [negb]; [|exact H].
  destruct c as [m e p sr cl f cs]. cbn [mounted] in Hm. subst m.
  cbn [mounted isExpanded packageName streamRef cleanup fresh calls].
  destruct ev as [|package| |].
  - apply (cleanup_then_effect_consistent e p), H.
  - destruct (eqb_jsstring package p); [exact H|].
    apply (cleanup_then_effect_consistent e p), H.
  - exact H.
  - destruct H as (Hscan & Hcl & Hsome & Hall).
    cbn [calls fresh streamRef cleanup mounted isExpanded packageName] in *.
    subst cl. unfold run_cleanup, consistent. cbn [cleanup].
    destruct sr as [h|];
      cbn [calls fresh streamRef cleanup mounted isExpanded packageName
           option_map is_open andb] in *.
    + rewrite scan_app, Hscan. cbn [scan]. rewrite Nat.eqb_refl.
      repeat split. rewrite forallb_app, Hall. reflexivity.
    + repeat split; assumption.
Qed.

Lemma run_consistent evs : forall c, consistent c -> consistent (run evs c).
Proof.
  induction evs as [|ev evs IH]; intros c H; [exact H|].
  apply IH, step_consistent, H.
Qed.

(** X11.  Under React's rule for effects, whatever the user and the parent
    do, the component opens and closes its streams in strict alternation:
    a stream is opened only while none is open, every stream is closed
    before the next one is opened, no stream is closed twice, a stream is
    open exactly while the component is mounted with the panel expanded,
    and the open stream is the one of the current package. *)
Theorem streams_open_and_close_in_turn
    (package : jsstring) (initialExpanded : bool) (evs : list Event) :
  scan (calls (run evs (mount package initialExpanded))) 0 None
  = Some (fresh (run evs (mount package initialExpanded)),
          option_map
            (fun h => (h, packageName (run evs (mount package initialExpanded))))
            (streamRef (run evs (mount package initialExpanded))))
  /\ is_open (streamRef (run evs (mount package initialExpanded)))
     = mounted (run evs (mount package initialExpanded))
       && isExpanded (run evs (mount package initialExpanded)).
Proof.
  destruct (run_consistent evs _ (mount_consistent package initialExpanded))
    as (Hscan & _ & Hsome & _).
  split; assumption.
Qed.

(** X12.  The [close()] in the branch of the effect for a collapsed panel
    never runs: whenever the effect runs with the panel collapsed, the
    cleanup function of the previous run has already closed the stream and
    emptied [streamRef]; every [close()] the component makes comes from a
    cleanup function. *)
Theorem collapse_branch_never_closes
    (package : jsstring) (initialExpanded : bool) (evs : list Event) :
  forallb from_cleanup (calls (run evs (mount package initialExpanded))) = true
  /\ cleanup (run evs (mount package initialExpanded))
     = streamRef (run evs (mount package initialExpanded)).
Proof.
  destruct (run_consistent evs _ (mount_consistent package initialExpanded))
    as (_ & Hcl & _ & Hall).
  split; assumption.
Qed.

End LifecycleFacts.

(* ===================================================================== *)
(** ** Properties of the store editor modal *)
(* ===================================================================== *)

Module StoreEditorFacts.
Import Lifecycle StoreEditor.

(** *** Ticking stores *)

Lemma toggle_one_twice x s :
  (let t := if eqb_jsstring (store_id (package s)) x
            then mkStoreState (package s) (negb (enabled s))
                   (originallyInstalled s)
            else s in
   if eqb_jsstring (store_id (package t)) x
   then mkStoreState (package t) (negb (enabled t)) (originallyInstalled t)
   else t) = s.
Proof.
  cbv zeta. destruct (eqb_jsstring (store_id (package s)) x) eqn:E.
  - cbn [package enabled originallyInstalled]. rewrite E, negb_involutive.
    destruct s; reflexivity.
  - rewrite E. reflexivity.
Qed.

(** X13.  Ticking a store twice restores the list; ticks of two stores
    can be made in either order; and a tick changes nothing but the
    [enabled] flags: the packages, their order and what the backend
    reported as installed stay. *)
Theorem ticks_only_flip_enabled (x y : jsstring) (stores : list StoreState) :
  handleToggle x (handleToggle x stores) = stores
  /\ handleToggle x (handleToggle y stores)
     = handleToggle y (handleToggle x stores)
  /\ map package (handleToggle x stores) = map package stores
  /\ map originallyInstalled (handleToggle x stores)
     = map originallyInstalled stores.
Proof.
  unfold handleToggle. repeat split.
  - rewrite map_map. rewrite <- (map_id stores) at 2.
    apply map_ext. intros s. apply (toggle_one_twice x s).
  - rewrite !map_map. apply map_ext. intros s.
    destruct (eqb_jsstring (store_id (package s)) y) eqn:Ey,
             (eqb_jsstring (store_id (package s)) x) eqn:Ex;
      cbn [package enabled originallyInstalled]; rewrite ?Ex, ?Ey;
      reflexivity.
  - rewrite map_map. apply map_ext. intros s.
    destruct (eqb_jsstring (store_id (package s)) x); reflexivity.
  - rewrite map_map. apply map_ext. intros s.
    destruct (eqb_jsstring (store_id (package s)) x); reflexivity.
Qed.

(** X14.  Right after loading nothing is pending; and ticking one store
    id then queues exactly the packages with that id: for installation
    those that are not installed, for removal those that are, in the order
    of the list. *)
Theorem one_tick_queues_that_store (x : jsstring) (packages : list StorePackage) :
  hasChanges (loaded packages) = false
  /\ toInstall (handleToggle x (loaded packages))
     = map (fun pkg => mkStoreState pkg true false)
           (filter (fun pkg => eqb_jsstring (store_id pkg) x
                               && negb (installed pkg)) packages)
  /\ toRemove (handleToggle x (loaded packages))
     = map (fun pkg => mkStoreState pkg false true)
           (filter (fun pkg => eqb_jsstring (store_id pkg) x && installed pkg)
                   packages).
Proof.
  repeat split; induction packages as [|pkg packages IH]; try reflexivity.
  - cbn [loaded map hasChanges existsb package enabled originallyInstalled].
    rewrite Bool.eqb_reflx. exact IH.
  - unfold toInstall, handleToggle, loaded in *. cbn [map filter].
    cbn [package]. rewrite IH. clear IH.
    destruct (eqb_jsstring (store_id pkg) x), pkg as [i n d []]; reflexivity.
  - unfold toRemove, handleToggle, loaded in *. cbn [map filter].
    cbn [package]. rewrite IH. clear IH.
    destruct (eqb_jsstring (store_id pkg) x), pkg as [i n d []]; reflexivity.
Qed.

(** *** What is pending *)

Lemma hasChanges_plan stores : hasChanges stores = false <-> plan stores = [].
Proof.
  unfold plan, hasChanges, toInstall, toRemove.
  induction stores as [|s stores IH]; [simpl; tauto|].
  cbn [existsb filter].
  destruct (enabled s), (originallyInstalled s); cbn; try exact IH;
    split; try discriminate.
  intros H. apply app_eq_nil in H as [_ H]. discriminate.
Qed.

(** X15.  There are changes to save exactly when the list of operations
    of a save is not empty; and no store is ever queued both for
    installation and for removal. *)
Theorem changes_are_the_plan (stores : list StoreState) :
  (hasChanges stores = false <-> plan stores = [])
  /\ (forall s, In s (toInstall stores) -> ~ In s (toRemove stores)).
Proof.
  split; [apply hasChanges_plan|].
  intros s H1 H2. unfold toInstall, toRemove in *.
  apply filter_In in H1 as [_ H1]. apply filter_In in H2 as [_ H2].
  destruct (enabled s); discriminate.
Qed.

Lemma changes_are_the_plan_witness :
  In (mkStoreState (mkStorePackage (str "a") (str "store-a") (str "A") false)
        true false)
     (toInstall sample_stores)
  /\ ~ In (mkStoreState (mkStorePackage (str "a") (str "store-a") (str "A") false)
           true false)
          (toRemove sample_stores).
Proof.
  assert (H : In (mkStoreState
                    (mkStorePackage (str "a") (str "store-a") (str "A") false)
                    true false)
                 (toInstall sample_stores)) by (left; reflexivity).
  split; [exact H|].
  exact (proj2 (changes_are_the_plan sample_stores) _ H).
Defined.

(** *** Saving *)

Section SaveFacts.

Variable outcome : list Operation -> Operation -> option jsstring.

Lemma perform_app ops1 :
  forall ops2 done,
    perform outcome (ops1 ++ ops2) done
    = match perform outcome ops1 done with
      | (acts1, Some message) => (acts1, Some message)
      | (acts1, None) =>
          let (acts2, r) := perform outcome ops2 (done ++ ops1) in
          (acts1 ++ acts2, r)
      end.
Proof.
  induction ops1 as [|op ops1 IH]; intros ops2 done.
  - cbn [app perform]. rewrite app_nil_r.
    destruct (perform outcome ops2 done); reflexivity.
  - cbn [app perform]. destruct (outcome done op); [reflexivity|].
    rewrite IH. destruct (perform outcome ops1 (done ++ [op])) as [a1 [m|]];
      [reflexivity|].
    rewrite <- app_assoc. cbn [app].
    destruct (perform outcome ops2 (done ++ op :: ops1)); reflexivity.
Qed.

(** The two loops are one loop over the plan. *)
Lemma handleSave_plan stores :
  handleSave outcome stores
  = if negb (hasChanges stores) then [OnClose]
    else
      [SetSaving true; SetError None]
      ++ (let (acts, r) := perform outcome (plan stores) [] in
          acts ++ match r with
                  | Some message =>
                      [SetError (Some message); SetSaveProgress None]
                  | None => [SetSaveProgress None; OnSave; OnClose]
                  end)
      ++ [SetSaving false].
Proof.
  unfold handleSave, plan. destruct (negb (hasChanges stores)); [reflexivity|].
  rewrite perform_app. cbn [app].
  destruct (perform outcome (map install_op (toInstall stores)) [])
    as [a1 [m|]]; [reflexivity|].
  destruct (perform outcome (map remove_op (toRemove stores))
              (map install_op (toInstall stores))) as [a2 [m|]];
    rewrite <- !app_assoc; reflexivity.
Qed.

Lemma perform_resolving ops :
  forall done,
    (forall i, i < length ops ->
               outcome (done ++ firstn i ops) (nth i ops (InstallPackage []))
               = None) ->
    perform outcome ops done = (steps ops, None).
Proof.
  induction ops as [|op ops IH]; intros done H; [reflexivity|].
  cbn [perform]. pose proof (H 0 ltac:(simpl; lia)) as H0.
  cbn [firstn nth] in H0. rewrite app_nil_r in H0. rewrite H0.
  rewrite IH; [reflexivity|].
  intros i Hi. specialize (H (S i) ltac:(simpl; lia)).
  cbn [firstn nth] in H. rewrite <- app_assoc. exact H.
Qed.

Lemma perform_rejecting before op after message :
  forall done,
    (forall i, i < length before ->
               outcome (done ++ firstn i before)
                       (nth i before (InstallPackage [])) = None) ->
    outcome (done ++ before) op = Some message ->
    perform outcome (before ++ op :: after) done
    = (steps (before ++ [op]), Some message).
Proof.
  induction before as [|b before IH]; intros done H Hop.
  - cbn [app perform]. rewrite app_nil_r in Hop. rewrite Hop. reflexivity.
  - cbn [app perform]. pose proof (H 0 ltac:(simpl; lia)) as H0.
    cbn [firstn nth] in H0. rewrite app_nil_r in H0. rewrite H0.
    rewrite IH; [reflexivity| |].
    + intros i Hi. specialize (H (S i) ltac:(simpl; lia)).
      cbn [firstn nth] in H. rewrite <- app_assoc. exact H.
    + rewrite <- app_assoc. exact Hop.
Qed.

Lemma awaited_app acts1 acts2 :
  awaited (acts1 ++ acts2) = awaited acts1 ++ awaited acts2.
Proof.
  induction acts1 as [|a acts1 IH]; [reflexivity|].
  destruct a; cbn [app awaited]; rewrite IH; reflexivity.
Qed.

Lemma perform_awaited ops :
  forall done,
    exists k, awaited (fst (perform outcome ops done)) = firstn k ops.
Proof.
  induction ops as [|op ops IH]; intros done; [exists 0; reflexivity|].
  cbn [perform]. destruct (outcome done op).
  - exists 1. reflexivity.
  - destruct (IH (done ++ [op])) as (k & Hk).
    destruct (perform outcome ops (done ++ [op])) as [acts r].
    exists (S k). cbn [fst awaited firstn] in *. rewrite Hk. reflexivity.
Qed.

(** X16.  When there are changes and every operation resolves, a save
    makes the installations of the stores that were ticked on, in the
    order of the list, then the removals of those that were ticked off,
    each after its progress notice, and then clears the notice, calls
    [onSave] and [onClose], and ends the saving state. *)
Theorem save_runs_the_plan (stores : list StoreState) :
  hasChanges stores = true ->
  (forall i, i < length (plan stores) ->
             outcome (firstn i (plan stores))
                     (nth i (plan stores) (InstallPackage [])) = None) ->
  handleSave outcome stores
  = [SetSaving true; SetError None] ++ steps (plan stores)
    ++ [SetSaveProgress None; OnSave; OnClose; SetSaving false].
Proof.
  intros Hch Hres. rewrite handleSave_plan, Hch. cbn [negb].
  rewrite (perform_resolving (plan stores) [] Hres).
  rewrite <- !app_assoc. reflexivity.
Qed.

(** X17.  When an operation of a save rejects, the save stops there: the
    operations before it have been made, those after it are not made,
    neither [onSave] nor [onClose] is called, the error is set to the
    message of the rejection, and the notice and the saving state are
    cleared. *)
Theorem save_stops_at_first_rejection
    (stores : list StoreState) (before after : list Operation)
    (op : Operation) (message : jsstring) :
  plan stores = before ++ op :: after ->
  (forall i, i < length before ->
             outcome (firstn i before) (nth i before (InstallPackage []))
             = None) ->
  outcome before op = Some message ->
  handleSave outcome stores
  = [SetSaving true; SetError None] ++ steps (before ++ [op])
    ++ [SetError (Some message); SetSaveProgress None; SetSaving false].
Proof.
  intros Hplan Hres Hrej. rewrite handleSave_plan.
  destruct (hasChanges stores) eqn:Hch.
  - cbn [negb]. rewrite Hplan.
    rewrite (perform_rejecting before op after message [] Hres Hrej).
    rewrite <- !app_assoc. reflexivity.
  - apply hasChanges_plan in Hch. rewrite Hch in Hplan.
    destruct before; discriminate.
Qed.

(** X18.  However the operations settle, a save makes an initial stretch
    of its plan and nothing else: it installs only packages of stores that
    are ticked and were not installed, removes only packages of stores that
    are not ticked and were installed, and without changes it only calls
    [onClose]. *)
Theorem save_touches_only_changes (stores : list StoreState) :
  (exists k, awaited (handleSave outcome stores) = firstn k (plan stores))
  /\ (forall name,
        In (InstallPackage name) (awaited (handleSave outcome stores)) ->
        exists s, In s stores /\ package_name (package s) = name
                  /\ enabled s = true /\ originallyInstalled s = false)
  /\ (forall name,
        In (RemovePackage name) (awaited (handleSave outcome stores)) ->
        exists s, In s stores /\ package_name (package s) = name
                  /\ enabled s = false /\ originallyInstalled s = true)
  /\ (hasChanges stores = false -> handleSave outcome stores = [OnClose]).
Proof.
  assert (Hpre : exists k,
             awaited (handleSave outcome stores) = firstn k (plan stores)).
  { rewrite handleSave_plan. destruct (hasChanges stores); cbn [negb].
    - destruct (perform_awaited (plan stores) []) as (k & Hk).
      destruct (perform outcome (plan stores) []) as [acts r].
      exists k. cbn [fst] in Hk. cbn [app awaited].
      rewrite !awaited_app, Hk. destruct r; cbn [awaited];
        rewrite !app_nil_r; reflexivity.
    - exists 0. reflexivity. }
  assert (Hin : forall op, In op (awaited (handleSave outcome stores)) ->
                           In op (plan stores)).
  { destruct Hpre as (k & ->). intros op Hop.
    rewrite <- (firstn_skipn k (plan stores)). apply in_or_app. left.
    exact Hop. }
  split; [exact Hpre|]. split; [|split].
  - intros name Hop. apply Hin in Hop. unfold plan in Hop.
    apply in_app_or in Hop as [Hop|Hop];
      apply in_map_iff in Hop as (s & Hs & Hin'); [|discriminate Hs].
    injection Hs as Hs. unfold toInstall in Hin'.
    apply filter_In in Hin' as [Hst Hf]. exists s.
    destruct (enabled s), (originallyInstalled s); try discriminate. auto.
  - intros name Hop. apply Hin in Hop. unfold plan in Hop.
    apply in_app_or in Hop as [Hop|Hop];
      apply in_map_iff in Hop as (s & Hs & Hin'); [discriminate Hs|].
    injection Hs as Hs. unfold toRemove in Hin'.
    apply filter_In in Hin' as [Hst Hf]. exists s.
    destruct (enabled s), (originallyInstalled s); try discriminate. auto.
  - intros Hch. unfold handleSave. rewrite Hch. reflexivity.
Qed.

End SaveFacts.

Lemma save_runs_the_plan_witness :
  hasChanges sample_stores = true
  /\ awaited (handleSave all_resolve sample_stores)
     = [InstallPackage (str "store-a"); RemovePackage (str "store-b")].
Proof.
  assert (H : hasChanges sample_stores = true) by reflexivity.
  split; [exact H|].
  rewrite (save_runs_the_plan all_resolve sample_stores H
             (fun i _ => eq_refl)).
  reflexivity.
Defined.

Lemma save_stops_at_first_rejection_witness :
  plan sample_stores
  = [InstallPackage (str "store-a")] ++ RemovePackage (str "store-b") :: []
  /\ removal_rejects [InstallPackage (str "store-a")]
       (RemovePackage (str "store-b")) = Some (str "locked")
  /\ In (SetError (Some (str "locked")))
        (handleSave removal_rejects sample_stores)
  /\ ~ In OnClose (handleSave removal_rejects sample_stores).
Proof.
  assert (H1 : plan sample_stores
               = [InstallPackage (str "store-a")]
                 ++ RemovePackage (str "store-b") :: []) by reflexivity.
  assert (H2 : removal_rejects [InstallPackage (str "store-a")]
                 (RemovePackage (str "store-b")) = Some (str "locked"))
    by reflexivity.
  assert (H0 : forall i, i < length [InstallPackage (str "store-a")] ->
                 removal_rejects (firstn i [InstallPackage (str "store-a")])
                   (nth i [InstallPackage (str "store-a")] (InstallPackage []))
                 = None).
  { intros [|[|i]] Hi; reflexivity. }
  split; [exact H1|]. split; [exact H2|].
  rewrite (save_stops_at_first_rejection removal_rejects sample_stores
             _ _ _ _ H1 H0 H2).
  split.
  - cbn. tauto.
  - cbn. intros H. repeat destruct H as [H|H]; try discriminate H. exact H.
Defined.

Lemma save_touches_only_changes_witness :
  In (InstallPackage (str "store-a"))
     (awaited (handleSave removal_rejects sample_stores))
  /\ exists s, In s sample_stores /\ package_name (package s) = str "store-a"
               /\ enabled s = true /\ originallyInstalled s = false.
Proof.
  assert (H : In (InstallPackage (str "store-a"))
                 (awaited (handleSave removal_rejects sample_stores)))
    by (left; reflexivity).
  split; [exact H|].
  exact (proj1 (proj2 (save_touches_only_changes removal_rejects sample_stores))
           _ H).
Defined.

End StoreEditorFacts.

(* ===================================================================== *)
(** ** Properties of the filter toggle group *)
(* ===================================================================== *)

Module FilterToggleFacts.
Import FilterToggle.

(** X19.  Whatever filter is selected, exactly one of the three items is
    shown as selected, each item is pressed exactly when it is selected,
    a click on the selected item calls nothing, a click on another item
    calls [onFilterChange] once with the filter of that item, and with a
    parent that keeps the filter it is told, the clicked filter is the
    selected one afterwards. *)
Theorem one_filter_is_selected (selectedFilter filter : InstallFilter) :
  length (List.filter isSelected (FilterToggleGroup selectedFilter)) = 1
  /\ Forall (fun item => ariaPressed item = isSelected item
                         /\ (isSelected item = true <-> onClick item = []))
            (FilterToggleGroup selectedFilter)
  /\ handleItemClick selectedFilter filter
     = (if eqb_filter filter selectedFilter then [] else [filter])
  /\ parent_after selectedFilter (handleItemClick selectedFilter filter)
     = filter
  /\ handleItemClick
       (parent_after selectedFilter (handleItemClick selectedFilter filter))
       filter = [].
Proof.
  destruct selectedFilter, filter; repeat split;
    try reflexivity; repeat constructor; try reflexivity; try discriminate.
Qed.

Lemma one_filter_is_selected_witness :
  handleItemClick installed available = [available]
  /\ parent_after installed (handleItemClick installed available) = available.
Proof.
  split; [reflexivity|].
  exact (proj1 (proj2 (proj2 (proj2 (one_filter_is_selected installed
                                       available))))).
Defined.

End FilterToggleFacts.

(* ===================================================================== *)
(** ** Properties of the install confirmation *)
(* ===================================================================== *)

Module AppStatusFacts.
Import Lifecycle AppStatus.

Section Facts.

Variable inherited : jsstring -> bool.
Variable pkg : Package.

Lemma flagged_has_warning :
  In (status pkg)
     [Some (str "experimental"); Some (str "beta"); Some (str "deprecated")] ->
  exists w, warning_of (getStatusConfig inherited (status pkg)) = Some w.
Proof.
  intros [<-|[<-|[<-|[]]]]; eexists; reflexivity.
Qed.

Lemma step_flagged w d ev :
  pkg_installed pkg = false ->
  warning_of (getStatusConfig inherited (status pkg)) = Some w ->
  let d' := step inherited pkg d ev in
  (Forall (eq OnInstall) (calls d) -> Forall (eq OnInstall) (calls d'))
  /\ length (calls d')
     = length (calls d) + (if is_install_anyway ev then
                             open_dialogs d else 0)
  /\ length (calls d') + open_dialogs d'
     <= length (calls d) + open_dialogs d
        + (if is_click_install ev then 1 else 0).
Proof.
  intros Hinst Hw d'. subst d'. unfold open_dialogs.
  destruct d as [[|] [|] cs];
    destruct ev; cbn [step is_install_anyway is_click_install];
    unfold handleInstallClick; rewrite ?Hinst, ?Hw;
    cbn [negb andb calls showInstallConfirm isActionInProgress];
    rewrite ?length_app; cbn [length];
    (split;
     [intros H;
      first [exact H
            |apply Forall_app; split; [exact H|repeat constructor]]
     |split; lia]).
Qed.

Lemma run_flagged w evs :
  pkg_installed pkg = false ->
  warning_of (getStatusConfig inherited (status pkg)) = Some w ->
  forall d,
    (Forall (eq OnInstall) (calls d) ->
     Forall (eq OnInstall) (calls (run inherited pkg evs d)))
    /\ length (calls (run inherited pkg evs d))
       <= length (calls d) + count_event is_install_anyway evs
    /\ length (calls (run inherited pkg evs d))
       + open_dialogs (run inherited pkg evs d)
       <= length (calls d) + open_dialogs d
          + count_event is_click_install evs.
Proof.
  intros Hinst Hw. unfold count_event.
  induction evs as [|ev evs IH]; intros d; [cbn; split; [auto|lia]|].
  cbn [run fold_left]. fold (run inherited pkg evs (step inherited pkg d ev)).
  destruct (IH (step inherited pkg d ev)) as (IH1 & IH2 & IH3).
  destruct (step_flagged w d ev Hinst Hw) as (S1 & S2 & S3).
  cbn [filter]. split; [auto|].
  assert (open_dialogs d <= 1) by (unfold open_dialogs; destruct (showInstallConfirm d); lia).
  destruct (is_install_anyway ev), (is_click_install ev); cbn [length]; lia.
Qed.

(** X20.  For a package that is not installed and whose status is
    experimental, beta or deprecated, a click on Install never calls
    [onInstall]: it opens the confirmation.  Whatever is clicked, every
    call made is an [onInstall] that answers a click on Install anyway in
    the open dialog, and each of these consumes an earlier click on
    Install: there are never more calls than confirmations, nor more calls
    and open dialogs than clicks on Install. *)
Theorem flagged_install_needs_confirmation (evs : list Event) (busy : bool) :
  pkg_installed pkg = false ->
  In (status pkg)
     [Some (str "experimental"); Some (str "beta"); Some (str "deprecated")] ->
  Forall (eq OnInstall) (calls (run inherited pkg evs (first_drawn busy)))
  /\ length (calls (run inherited pkg evs (first_drawn busy)))
     <= count_event is_install_anyway evs
  /\ length (calls (run inherited pkg evs (first_drawn busy)))
     + open_dialogs (run inherited pkg evs (first_drawn busy))
     <= count_event is_click_install evs.
Proof.
  intros Hinst Hst. destruct (flagged_has_warning Hst) as (w & Hw).
  destruct (run_flagged w evs Hinst Hw (first_drawn busy)) as (H1 & H2 & H3).
  split; [apply H1; constructor|]. split; [exact H2|exact H3].
Qed.

Lemma run_unflagged evs :
  pkg_installed pkg = false ->
  warning_of (getStatusConfig inherited (status pkg)) = None ->
  forallb (fun ev => negb (is_set_busy ev)) evs = true ->
  forall d,
    isActionInProgress d = false -> showInstallConfirm d = false ->
    run inherited pkg evs d
    = mkDetails false false
        (calls d ++ repeat OnInstall (count_event is_click_install evs)).
Proof.
  intros Hinst Hw. unfold count_event.
  induction evs as [|ev evs IH]; intros Hev d Hbusy Hshow.
  - destruct d as [sh b cs]. cbn in *. subst. rewrite app_nil_r. reflexivity.
  - cbn [forallb] in Hev. apply andb_true_iff in Hev as [Hev1 Hev].
    cbn [run fold_left]. fold (run inherited pkg evs (step inherited pkg d ev)).
    destruct d as [sh b cs]. cbn in Hbusy, Hshow. subst sh b.
    destruct ev; cbn [step is_set_busy negb] in *; try discriminate Hev1;
      unfold handleInstallClick; rewrite ?Hinst, ?Hw;
      cbn [negb andb filter is_click_install length repeat calls
           showInstallConfirm isActionInProgress];
      rewrite (IH Hev) by reflexivity; try reflexivity.
    cbn [calls]. rewrite <- app_assoc. reflexivity.
Qed.

(** X21.  For a package that is not installed and whose status gives no
    warning (no status, an unknown one, or a name that the table only
    inherits), with no action in progress, every click on Install calls
    [onInstall] at once, nothing else is called, and the confirmation
    never opens. *)
Theorem plain_install_is_immediate (evs : list Event) :
  pkg_installed pkg = false ->
  warning_of (getStatusConfig inherited (status pkg)) = None ->
  forallb (fun ev => negb (is_set_busy ev)) evs = true ->
  run inherited pkg evs (first_drawn false)
  = mkDetails false false
      (repeat OnInstall (count_event is_click_install evs)).
Proof.
  intros Hinst Hw Hev.
  exact (run_unflagged evs Hinst Hw Hev (first_drawn false) eq_refl eq_refl).
Qed.

End Facts.

Lemma flagged_install_needs_confirmation_witness :
  pkg_installed sample_beta = false
  /\ In (status sample_beta)
        [Some (str "experimental"); Some (str "beta"); Some (str "deprecated")]
  /\ calls (run sample_inherited sample_beta
              [ClickInstall; ClickCancel; ClickInstallAnyway; ClickInstall]
              (first_drawn false)) = []
  /\ length (calls (run sample_inherited sample_beta
                      [ClickInstall; ClickInstallAnyway] (first_drawn false)))
     <= 1.
Proof.
  assert (H1 : pkg_installed sample_beta = false) by reflexivity.
  assert (H2 : In (status sample_beta)
                  [Some (str "experimental"); Some (str "beta");
                   Some (str "deprecated")]) by (right; left; reflexivity).
  split; [exact H1|]. split; [exact H2|]. split; [reflexivity|].
  exact (proj1 (proj2 (flagged_install_needs_confirmation sample_inherited
                         sample_beta [ClickInstall; ClickInstallAnyway] false
                         H1 H2))).
Defined.

Lemma plain_install_is_immediate_witness :
  pkg_installed sample_plain = false
  /\ warning_of (getStatusConfig sample_inherited (status sample_plain)) = None
  /\ calls (run sample_inherited sample_plain
              [ClickInstall; ClickInstallAnyway; ClickInstall]
              (first_drawn false))
     = [OnInstall; OnInstall].
Proof.
  assert (H1 : pkg_installed sample_plain = false) by reflexivity.
  assert (H2 : warning_of (getStatusConfig sample_inherited
                             (status sample_plain)) = None) by reflexivity.
  split; [exact H1|]. split; [exact H2|].
  rewrite (plain_install_is_immediate sample_inherited sample_plain
             [ClickInstall; ClickInstallAnyway; ClickInstall] H1 H2 eq_refl).
  reflexivity.
Defined.

End AppStatusFacts.
